(** * NYC Taxi Analytics: the filter-and-aggregate job of [spark_app.py]

    A shallow embedding of [src/spark_app.py] and of the part of the Spark SQL
    engine it drives: data frames, column resolution, three-valued comparison,
    the null-skipping aggregates [F.min], [F.max], [F.avg], [F.stddev],
    [groupBy]/[orderBy], the console and the Parquet store.

    Conventions of the embedding.
    - The table is what [src/parquet_converter.py] produces: [pandas.read_csv]
      followed by [to_parquet] yields columns of 64-bit integers, of doubles and
      of strings (date-time columns stay strings), with missing cells as nulls.
    - Double arithmetic is an interface ([Double]) with two instances:
      [binary64], the IEEE arithmetic the job runs on (it computes), and
      [exact], the real numbers, in which the textbook identities are stated.
      In [binary64] the comparisons are Spark's: NaN equals itself and is
      above every number, and the two zeros are equal.
    - Spark runs with its defaults: column names are resolved without regard
      to case, a failed cast gives NULL, a statistic divided by zero is NULL.
      Column names are plain identifiers (no dots or backticks).
    - A data frame is a plan over the files of the path it was read from, and
      Spark runs it at each action. The store does not change between the read
      and the last action of a run, so the frame is modelled by the rows it
      yields; the one place where the deferred scan shows is a write to the
      path the frame is read from, which clears the path before the scan.
    - A path of the store is the string given: two spellings of one location
      are two paths.
    - The program returns nothing and prints: a run is a change of the
      console and of the store, or an exception. *)

From Stdlib Require Import ZArith List String Ascii Bool Reals Lra Lia Floats.
From Stdlib Require Uint63.
From Stdlib Require Import Sorting.Sorted Sorting.Permutation.
From stdpp Require Import gmap strings.

Local Open Scope string_scope.
Local Open Scope list_scope.
Local Open Scope Z_scope.

(** ** Double arithmetic *)

(** What CAST(string AS DOUBLE) reads in a string, before it is rounded. *)
Inductive numeral :=
| Ratio (negative : bool) (n d : Z)   (* n / d or its opposite, 0 <= n and 0 < d *)
| Infinite (negative : bool)
| NotANumber.

Class Double (num : Type) := {
  of_Z : Z -> num;
  of_numeral : numeral -> option num;
  dadd : num -> num -> num;
  dsub : num -> num -> num;
  dmul : num -> num -> num;
  ddiv : num -> num -> num;
  dsqrt : num -> num;
  dleb : num -> num -> bool;
  deqb : num -> num -> bool;
}.

(** The double nearest to [n / d], ties to even, for [0 <= n] and [0 < d]:
    [2 ^ e <= n / d < 2 ^ (e + 1)], the last bit kept weighs [2 ^ lsb] (53 bits,
    fewer below the normal range), and [q] is [n / d] in units of that bit,
    rounded. Past the largest double the result is infinity. *)
Definition round_ratio (n d : Z) : float :=
  if n =? 0 then PrimFloat.zero
  else
    let e0 := Z.log2 n - Z.log2 d in
    let e := if n * 2 ^ Z.max (- e0) 0 <? d * 2 ^ Z.max e0 0 then e0 - 1 else e0 in
    let lsb := Z.max (e - 52) (-1074) in
    let num := n * 2 ^ Z.max (- lsb) 0 in
    let den := d * 2 ^ Z.max lsb 0 in
    let q := num / den in
    let r := num mod den in
    let q := if 2 * r <? den then q
             else if den <? 2 * r then q + 1
             else if Z.even q then q else q + 1 in
    Z.ldexp (PrimFloat.of_uint63 (Uint63.of_Z q)) lsb.

Definition signed (negative : bool) (x : float) : float :=
  if negative then PrimFloat.opp x else x.

(** A long as a double. *)
Definition float_of_Z (z : Z) : float := signed (z <? 0) (round_ratio (Z.abs z) 1).

Definition float_of_numeral (x : numeral) : option float :=
  Some match x with
       | Ratio s n d => signed s (round_ratio n d)
       | Infinite s => signed s PrimFloat.infinity
       | NotANumber => PrimFloat.nan
       end.

(** Spark's order of the doubles: the IEEE order, with NaN equal to itself
    and above everything else. *)
Definition float_leb (x y : float) : bool :=
  if PrimFloat.is_nan x then PrimFloat.is_nan y
  else if PrimFloat.is_nan y then true
  else PrimFloat.leb x y.

Definition float_eqb (x y : float) : bool :=
  (PrimFloat.is_nan x && PrimFloat.is_nan y) || PrimFloat.eqb x y.

#[export] Instance binary64 : Double float := {
  of_Z := float_of_Z;
  of_numeral := float_of_numeral;
  dadd := PrimFloat.add;
  dsub := PrimFloat.sub;
  dmul := PrimFloat.mul;
  ddiv := PrimFloat.div;
  dsqrt := PrimFloat.sqrt;
  dleb := float_leb;
  deqb := float_eqb;
}.

Definition Rleb (x y : R) : bool := if Rle_dec x y then true else false.
Definition Reqb (x y : R) : bool := if Req_dec_T x y then true else false.

(** The reals have the ratios, and neither an infinity nor a NaN. *)
Definition real_of_numeral (x : numeral) : option R :=
  match x with
  | Ratio false n d => Some (IZR n / IZR d)%R
  | Ratio true n d => Some (- (IZR n / IZR d))%R
  | _ => None
  end.

#[export] Instance exact : Double R := {
  of_Z := IZR;
  of_numeral := real_of_numeral;
  dadd := Rplus;
  dsub := Rminus;
  dmul := Rmult;
  ddiv := Rdiv;
  dsqrt := R_sqrt.sqrt;
  dleb := Rleb;
  deqb := Reqb;
}.

(** ** Values, rows and data frames *)

Inductive dtype := LongType | DoubleType | StringType.

Definition is_numeric (t : dtype) : bool :=
  match t with LongType | DoubleType => true | StringType => false end.

Inductive value (num : Type) :=
| VNull
| VLong (z : Z)
| VDouble (x : num)
| VStr (s : string).
Arguments VNull {num}.
Arguments VLong {num} z.
Arguments VDouble {num} x.
Arguments VStr {num} s.

Record DataFrame (num : Type) := {
  schema : list (string * dtype);
  rows : list (gmap string (value num));
}.
Arguments schema {num} d.
Arguments rows {num} d.

(** [df.columns] *)
Definition columns {num} (df : DataFrame num) : list string := map fst (schema df).

(** A missing cell reads as NULL. *)
Definition cell {num} (r : gmap string (value num)) (c : string) : value num :=
  default VNull (r !! c).

(** ** Column resolution (spark.sql.caseSensitive = false) *)

Definition lower_ascii (a : ascii) : ascii :=
  let n := N_of_ascii a in
  if ((65 <=? n) && (n <=? 90))%N then ascii_of_N (n + 32) else a.

Fixpoint lower (s : string) : string :=
  match s with
  | EmptyString => EmptyString
  | String a s' => String (lower_ascii a) (lower s')
  end.

Definition same_column (a b : string) : bool := String.eqb (lower a) (lower b).

Definition resolve (cols : list string) (name : string) : option string :=
  List.find (same_column name) cols.

(** Python's [name in df.columns]. *)
Definition in_columns (name : string) (cols : list string) : bool :=
  existsb (String.eqb name) cols.

(** No two columns of a readable Parquet schema have the same resolved name. *)
Fixpoint distinct_columns (cols : list string) : bool :=
  match cols with
  | [] => true
  | c :: cs => negb (existsb (same_column c) cs) && distinct_columns cs
  end.

(** The first column whose resolved name comes again, in lower case as the
    engine reports it. *)
Fixpoint duplicate_column (cols : list string) : option string :=
  match cols with
  | [] => None
  | c :: cs => if existsb (same_column c) cs then Some (lower c) else duplicate_column cs
  end.

(** ** CAST(string AS DOUBLE)

    Spark hands the string to Java's [Double.parseDouble]: blanks around it
    are dropped, then come an optional sign and [NaN], [Infinity], a
    hexadecimal numeral with its binary exponent, or decimal digits with at
    most one point and an optional exponent; one of the suffixes f, F, d, D
    may follow. What Java refuses Spark reads once more, whatever the case,
    as one of inf, infinity, nan; any other string casts to NULL. *)

Definition digit (a : ascii) : option Z :=
  let n := Z.of_N (N_of_ascii a) in
  if (48 <=? n) && (n <=? 57) then Some (n - 48) else None.

Definition hex_digit (a : ascii) : option Z :=
  let n := Z.of_N (N_of_ascii a) in
  if (48 <=? n) && (n <=? 57) then Some (n - 48)
  else if (65 <=? n) && (n <=? 70) then Some (n - 55)
  else if (97 <=? n) && (n <=? 102) then Some (n - 87)
  else None.

(** [String.trim]: the characters up to the space are blanks. *)
Definition blank (a : ascii) : bool := (N_of_ascii a <=? 32)%N.

Fixpoint trim_left (s : list ascii) : list ascii :=
  match s with
  | a :: s' => if blank a then trim_left s' else s
  | [] => []
  end.

Definition trim (s : list ascii) : list ascii :=
  rev (trim_left (rev (trim_left s))).

Definition is_char (among : string) (a : ascii) : bool :=
  existsb (Ascii.eqb a) (list_ascii_of_string among).

(** The digits of a significand, with at most one point: the integer they
    spell in the base, the number of digits after the point, whether there
    is a digit at all, and what follows them. *)
Fixpoint read_digits (dig : ascii -> option Z) (base : Z) (s : list ascii)
    (m k : Z) (point any : bool) : Z * Z * bool * list ascii :=
  match s with
  | a :: s' =>
      match dig a with
      | Some d =>
          read_digits dig base s' (base * m + d) (if point then k + 1 else k) point true
      | None =>
          if Ascii.eqb a "."%char && negb point then read_digits dig base s' m k true any
          else (m, k, any, s)
      end
  | [] => (m, k, any, s)
  end.

Definition read_sign (s : list ascii) : bool * list ascii :=
  match s with
  | a :: s' =>
      if Ascii.eqb a "-"%char then (true, s')
      else if Ascii.eqb a "+"%char then (false, s')
      else (false, s)
  | [] => (false, s)
  end.

(** An exponent: an optional sign and at least one decimal digit. *)
Definition read_exponent (s : list ascii) : option (Z * list ascii) :=
  let '(negative, s) := read_sign s in
  match read_digits digit 10 s 0 0 true false with
  | (e, _, true, rest) => Some (if negative then - e else e, rest)
  | _ => None
  end.

(** Nothing may follow a numeral but one of the suffixes f, F, d, D. *)
Definition suffix_only (s : list ascii) : bool :=
  match s with
  | [] => true
  | [a] => is_char "fFdD" a
  | _ => false
  end.

(** [m * base ^ e] as a ratio. *)
Definition scaled (negative : bool) (m base e : Z) : numeral :=
  if e <? 0 then Ratio negative m (base ^ (- e)) else Ratio negative (m * base ^ e) 1.

Definition read_decimal (negative : bool) (s : list ascii) : option numeral :=
  match read_digits digit 10 s 0 0 false false with
  | (m, k, true, rest) =>
      match rest with
      | a :: rest' =>
          if is_char "eE" a then
            match read_exponent rest' with
            | Some (e, rest'') =>
                if suffix_only rest'' then Some (scaled negative m 10 (e - k)) else None
            | None => None
            end
          else if suffix_only rest then Some (scaled negative m 10 (- k)) else None
      | [] => Some (scaled negative m 10 (- k))
      end
  | _ => None
  end.

Definition read_hexadecimal (negative : bool) (s : list ascii) : option numeral :=
  match read_digits hex_digit 16 s 0 0 false false with
  | (m, k, true, a :: rest) =>
      if is_char "pP" a then
        match read_exponent rest with
        | Some (e, rest') =>
            if suffix_only rest' then Some (scaled negative m 2 (e - 4 * k)) else None
        | None => None
        end
      else None
  | _ => None
  end.

(** [Double.parseDouble], on a trimmed string. *)
Definition parse_double (s : list ascii) : option numeral :=
  let '(negative, body) := read_sign s in
  if String.eqb (string_of_list_ascii body) "NaN" then Some NotANumber
  else if String.eqb (string_of_list_ascii body) "Infinity" then Some (Infinite negative)
  else match body with
       | z :: x :: body' =>
           if Ascii.eqb z "0"%char && is_char "xX" x then read_hexadecimal negative body'
           else read_decimal negative body
       | _ => read_decimal negative body
       end.

(** The literals Spark reads where Java reads none. *)
Definition special_literal (s : list ascii) : option numeral :=
  let l := string_of_list_ascii (map lower_ascii s) in
  if existsb (String.eqb l) ["inf"; "+inf"; "infinity"; "+infinity"] then
    Some (Infinite false)
  else if existsb (String.eqb l) ["-inf"; "-infinity"] then Some (Infinite true)
  else if String.eqb l "nan" then Some NotANumber
  else None.

Definition read_double (s : string) : option numeral :=
  let t := trim (list_ascii_of_string s) in
  match parse_double t with
  | Some x => Some x
  | None => special_literal t
  end.

(** ** Errors *)

Inductive Exception :=
| AttributeNotFound (attribute : string) (cols : list string)  (* ValueError raised by main *)
| GroupByRequired                                             (* ValueError raised by mode_group *)
| PathNotFound (path : string)                                (* AnalysisException: no such input *)
| DuplicateColumns (path : string)                            (* AnalysisException: schema read *)
| UnresolvedColumn (name : string)                            (* AnalysisException: no such column *)
| ColumnAlreadyExists (name : string)                         (* AnalysisException: schema written *)
| WriteFailed (path : string).                                (* SparkException: the write job failed *)

Inductive Result (A : Type) :=
| Ok (a : A)
| Raise (e : Exception).
Arguments Ok {A} a.
Arguments Raise {A} e.

Definition and_then {A B} (r : Result A) (f : A -> Result B) : Result B :=
  match r with Ok a => f a | Raise e => Raise e end.

Inductive Mode := Filter | Group.   (* argparse: choices=["filter", "group"] *)

(** Python's truth of an optional string: [None] and the empty string are
    false. *)
Definition truthy (o : option string) : option string :=
  match o with
  | Some EmptyString => None
  | Some s => Some s
  | None => None
  end.

Section Engine.
Context {num : Type} {D : Double num}.

Definition cast_double (s : string) : option num :=
  match read_double s with
  | Some x => of_numeral x
  | None => None
  end.

(** The double a value is read as by a numeric operator; NULL stays NULL. *)
Definition to_double (v : value num) : option num :=
  match v with
  | VNull => None
  | VLong z => Some (of_Z z)
  | VDouble x => Some x
  | VStr s => cast_double s
  end.

(** ** Three-valued comparison

    [a <= b] in Spark SQL: NULL if an operand is NULL; two strings and two
    longs compare by their own order; otherwise both sides are read as
    doubles, and a string that is no number makes the comparison NULL. *)
Definition sql_le (a b : value num) : option bool :=
  match a, b with
  | VNull, _ | _, VNull => None
  | VStr s, VStr t => Some (String.leb s t)
  | VLong x, VLong y => Some (x <=? y)
  | _, _ =>
      match to_double a, to_double b with
      | Some x, Some y => Some (dleb x y)
      | _, _ => None
      end
  end.

Definition sql_ge (a b : value num) : option bool := sql_le b a.

(** ** Filtering *)

(** [df.filter(cond)]: a row stays when the condition is true, and is dropped
    when it is false or NULL. *)
Definition where_ (cond : gmap string (value num) -> option bool) (df : DataFrame num)
  : DataFrame num :=
  {| schema := schema df;
     rows := List.filter (fun r => match cond r with Some true => true | _ => false end)
               (rows df) |}.

(** [df.filter(F.col(name) >= F.lit(v))] *)
Definition filter_ge (df : DataFrame num) (name : string) (v : value num)
  : Result (DataFrame num) :=
  match resolve (columns df) name with
  | Some c => Ok (where_ (fun r => sql_ge (cell r c) v) df)
  | None => Raise (UnresolvedColumn name)
  end.

(** [df.filter(F.col(name) <= F.lit(v))] *)
Definition filter_le (df : DataFrame num) (name : string) (v : value num)
  : Result (DataFrame num) :=
  match resolve (columns df) name with
  | Some c => Ok (where_ (fun r => sql_le (cell r c) v) df)
  | None => Raise (UnresolvedColumn name)
  end.

(** ** Aggregates: NULL cells are skipped *)

Definition least (acc v : value num) : value num :=
  match acc, v with
  | _, VNull => acc
  | VNull, _ => v
  | _, _ => match sql_le acc v with Some true => acc | _ => v end
  end.

Definition greatest (acc v : value num) : value num :=
  match acc, v with
  | _, VNull => acc
  | VNull, _ => v
  | _, _ => match sql_ge acc v with Some true => acc | _ => v end
  end.

Definition F_min (vs : list (value num)) : value num := fold_left least vs VNull.
Definition F_max (vs : list (value num)) : value num := fold_left greatest vs VNull.

(** The doubles an average or a deviation runs over. *)
Definition doubles (vs : list (value num)) : list num := omap to_double vs.

Definition dsum (xs : list num) : num := fold_left dadd xs (of_Z 0).

Definition F_avg (vs : list (value num)) : option num :=
  match doubles vs with
  | [] => None
  | xs => Some (ddiv (dsum xs) (of_Z (Z.of_nat (length xs))))
  end.

(** The running moments of Spark's central-moment aggregate. *)
Record Moments := { m_n : nat; m_avg : num; m_m2 : num }.

Definition moments0 : Moments := {| m_n := O; m_avg := of_Z 0; m_m2 := of_Z 0 |}.

Definition moments_update (m : Moments) (x : num) : Moments :=
  let n := S (m_n m) in
  let delta := dsub x (m_avg m) in
  let deltaN := ddiv delta (of_Z (Z.of_nat n)) in
  {| m_n := n;
     m_avg := dadd (m_avg m) deltaN;
     m_m2 := dadd (m_m2 m) (dmul delta (dsub delta deltaN)) |}.

Definition moments_of (xs : list num) : Moments := fold_left moments_update xs moments0.

(** [stddev] is [stddev_samp]: NULL without values, NULL (a division by
    zero) with one value, else [sqrt(m2 / (n - 1))]. *)
Definition stddev_samp (xs : list num) : option num :=
  let m := moments_of xs in
  match m_n m with
  | O => None
  | S O => None
  | n => Some (dsqrt (ddiv (m_m2 m) (dsub (of_Z (Z.of_nat n)) (of_Z 1))))
  end.

Definition F_stddev (vs : list (value num)) : option num := stddev_samp (doubles vs).

Record Stats := {
  stat_min : value num;
  stat_max : value num;
  stat_avg : option num;
  stat_stddev : option num;
}.

(** [.agg(F.min(c), F.max(c), F.avg(c), F.stddev(c))] over the rows [rs]. *)
Definition agg (c : string) (rs : list (gmap string (value num))) : Stats :=
  let vs := map (fun r => cell r c) rs in
  {| stat_min := F_min vs; stat_max := F_max vs;
     stat_avg := F_avg vs; stat_stddev := F_stddev vs |}.

(** ** Grouping and ordering *)

Definition key_eqb (a b : value num) : bool :=
  match a, b with
  | VNull, VNull => true
  | VLong x, VLong y => x =? y
  | VDouble x, VDouble y => deqb x y
  | VStr s, VStr t => String.eqb s t
  | _, _ => false
  end.

(** Ascending order of [orderBy]: NULL first. *)
Definition key_leb (a b : value num) : bool :=
  match a, b with
  | VNull, _ => true
  | _, VNull => false
  | _, _ => match sql_le a b with Some true => true | _ => false end
  end.

Fixpoint add_to_group (k : value num) (r : gmap string (value num))
    (gs : list (value num * list (gmap string (value num))))
  : list (value num * list (gmap string (value num))) :=
  match gs with
  | [] => [(k, [r])]
  | (k', rs) :: gs' =>
      if key_eqb k k' then (k', rs ++ [r]) :: gs'
      else (k', rs) :: add_to_group k r gs'
  end.

(** The key a cell groups under: the cell itself, but for a double zero,
    which groups under the positive zero whatever its sign. *)
Definition group_key (v : value num) : value num :=
  match v with
  | VDouble x => if deqb x (of_Z 0) then VDouble (of_Z 0) else v
  | _ => v
  end.

(** [groupBy(c)]: the rows split by the value of column [c], NULL a key of
    its own. *)
Definition groupBy (c : string) (rs : list (gmap string (value num)))
  : list (value num * list (gmap string (value num))) :=
  fold_left (fun gs r => add_to_group (group_key (cell r c)) r gs) rs [].

Record GroupRow := {
  g_key : value num;
  g_count : nat;
  g_stats : Stats;
}.

Fixpoint insert_by_key (g : GroupRow) (gs : list GroupRow) : list GroupRow :=
  match gs with
  | [] => [g]
  | h :: t => if key_leb (g_key g) (g_key h) then g :: h :: t else h :: insert_by_key g t
  end.

Definition orderBy (gs : list GroupRow) : list GroupRow :=
  fold_right insert_by_key [] gs.

(** [groupBy(k).agg(F.count("*"), F.min(a), F.max(a), F.avg(a), F.stddev(a))
    .orderBy(k)], the columns [k] and [a] resolved; [orderBy] sorts by the
    grouping column, also when an aggregate is given its name. *)
Definition grouped_rows (k a : string) (rs : list (gmap string (value num)))
  : list GroupRow :=
  orderBy (map (fun g => {| g_key := fst g; g_count := length (snd g);
                            g_stats := agg a (snd g) |})
               (groupBy k rs)).

(** The grouped result as a data frame, as [grouped.write] stores it: the
    key column has the name [g] that [groupBy] was given, as it was spelled,
    and the type of the column [k] it resolved to. When [g] is the name of an
    aggregate the schema has that name twice and the frame is never stored. *)
Definition dtype_of (df : DataFrame num) (c : string) : dtype :=
  match List.find (fun p => String.eqb (fst p) c) (schema df) with
  | Some p => snd p
  | None => StringType
  end.

Definition nullable (o : option num) : value num :=
  match o with Some x => VDouble x | None => VNull end.

Definition group_cells (g : string) (row : GroupRow) : gmap string (value num) :=
  list_to_map
    [(g, g_key row); ("count", VLong (Z.of_nat (g_count row)));
     ("min", stat_min (g_stats row)); ("max", stat_max (g_stats row));
     ("avg", nullable (stat_avg (g_stats row)));
     ("stddev", nullable (stat_stddev (g_stats row)))].

Definition grouped_frame (df : DataFrame num) (g k a : string) (gs : list GroupRow)
  : DataFrame num :=
  {| schema := [(g, dtype_of df k); ("count", LongType);
                ("min", dtype_of df a); ("max", dtype_of df a);
                ("avg", DoubleType); ("stddev", DoubleType)];
     rows := map (group_cells g) gs |}.

(** The names the five aggregates are given. *)
Definition aliases : list string := ["count"; "min"; "max"; "avg"; "stddev"].

(** ** The command line *)

Record Args := {
  mode : Mode;
  input : string;
  attribute : string;
  min_value : option num;
  max_value : option num;
  start : option string;
  end_ : option string;
  group_by : option string;
  output : option string;
}.

(** ** The console, the store and the program monad *)

Inductive Printed :=
| ReadingFrom (path : string)
| PrintSchema (s : list (string * dtype))
| FilterMode (attribute : string) (count : nat)
| NoRowsMatch
| Statistics (stats : Stats)
| WritingFiltered (path : string)
| GroupMode (group_by attribute : string)
| GroupedStatistics (shown : list GroupRow)
| WritingGrouped (path : string).

Record World := {
  console : list Printed;
  hdfs : gmap string (DataFrame num);
}.

Definition Spark (A : Type) : Type := World -> Result A * World.

Definition ret {A} (a : A) : Spark A := fun w => (Ok a, w).

Definition bind {A B} (m : Spark A) (f : A -> Spark B) : Spark B :=
  fun w => match m w with
           | (Ok a, w') => f a w'
           | (Raise e, w') => (Raise e, w')
           end.

Definition raise {A} (e : Exception) : Spark A := fun w => (Raise e, w).

Definition lift {A} (r : Result A) : Spark A := fun w => (r, w).

Definition print (p : Printed) : Spark unit :=
  fun w => (Ok tt, {| console := console w ++ [p]; hdfs := hdfs w |}).

(** [spark.read.parquet(path)] *)
Definition read_parquet (path : string) : Spark (DataFrame num) :=
  fun w => match hdfs w !! path with
           | None => (Raise (PathNotFound path), w)
           | Some df =>
               if distinct_columns (columns df) then (Ok df, w)
               else (Raise (DuplicateColumns path), w)
           end.

(** [df.write.mode("overwrite").parquet(path)], for a frame [df] that is a
    plan over the files of the path [scanned]. A schema with a column name
    twice is refused before anything is touched. Then the path is cleared and
    the plan is run: when the path is the one the plan scans, its files are
    gone, the job fails, and the path is left without data. *)
Definition write_parquet (scanned path : string) (df : DataFrame num) : Spark unit :=
  fun w =>
    match duplicate_column (columns df) with
    | Some c => (Raise (ColumnAlreadyExists c), w)
    | None =>
        if String.eqb path scanned then
          (Raise (WriteFailed path),
           {| console := console w; hdfs := delete path (hdfs w) |})
        else (Ok tt, {| console := console w; hdfs := <[path := df]> (hdfs w) |})
    end.

End Engine.

Declare Scope spark_scope.
Delimit Scope spark_scope with spark.
Notation "x <- m ;; k" := (bind m (fun x => k))
  (at level 100, m at next level, right associativity) : spark_scope.
Notation "m ;; k" := (bind m (fun _ => k))
  (at level 100, right associativity) : spark_scope.

Arguments Args num : clear implicits.
Arguments World num : clear implicits.
Arguments Spark num A : clear implicits.
Arguments Moments num : clear implicits.
Arguments Stats num : clear implicits.
Arguments GroupRow num : clear implicits.
Arguments Printed num : clear implicits.

Section Program.
Context {num : Type} {D : Double num}.
Local Open Scope spark_scope.

(** ** [spark_app.py] *)

Definition apply_filters (df : DataFrame num) (args : Args num)
  : Result (DataFrame num) :=
  let attribute := attribute args in
  and_then
    (if in_columns "tpep_pickup_datetime" (columns df) then
       and_then
         (match truthy (start args) with
          | Some s => filter_ge df "tpep_pickup_datetime" (VStr s)
          | None => Ok df
          end)
         (fun df =>
            match truthy (end_ args) with
            | Some e => filter_le df "tpep_pickup_datetime" (VStr e)
            | None => Ok df
            end)
     else Ok df)
    (fun df =>
       and_then
         (match min_value args with
          | Some m => filter_ge df attribute (VDouble m)
          | None => Ok df
          end)
         (fun df =>
            match max_value args with
            | Some m => filter_le df attribute (VDouble m)
            | None => Ok df
            end)).

(** The time window of [apply_filters], on its own. *)
Definition time_window (df : DataFrame num) (args : Args num) : Result (DataFrame num) :=
  if in_columns "tpep_pickup_datetime" (columns df) then
    and_then
      (match truthy (start args) with
       | Some s => filter_ge df "tpep_pickup_datetime" (VStr s)
       | None => Ok df
       end)
      (fun df =>
         match truthy (end_ args) with
         | Some e => filter_le df "tpep_pickup_datetime" (VStr e)
         | None => Ok df
         end)
  else Ok df.

(** The bounds of [apply_filters], on their own. *)
Definition bounds (df : DataFrame num) (args : Args num) : Result (DataFrame num) :=
  and_then
    (match min_value args with
     | Some m => filter_ge df (attribute args) (VDouble m)
     | None => Ok df
     end)
    (fun df =>
       match max_value args with
       | Some m => filter_le df (attribute args) (VDouble m)
       | None => Ok df
       end).

(** [df.agg(F.min(a), F.max(a), F.avg(a), F.stddev(a))] *)
Definition agg_frame (df : DataFrame num) (a : string) : Result (Stats num) :=
  match resolve (columns df) a with
  | Some c => Ok (agg c (rows df))
  | None => Raise (UnresolvedColumn a)
  end.

(** The frame [mode_filter] and [mode_group] are given is the one [main]
    read from [args.input]: this is the path their writes scan. *)
Definition mode_filter (df : DataFrame num) (args : Args num) : Spark num unit :=
  df_filtered <- lift (apply_filters df args) ;;
  let count := length (rows df_filtered) in
  print (FilterMode (attribute args) count) ;;
  if Nat.eqb count 0 then print NoRowsMatch
  else
    stats <- lift (agg_frame df_filtered (attribute args)) ;;
    print (Statistics stats) ;;
    match truthy (output args) with
    | Some path =>
        print (WritingFiltered path) ;; write_parquet (input args) path df_filtered
    | None => ret tt
    end.

(** [df.groupBy(g).agg(...).orderBy(g)]: [g] and [a] are resolved in the
    frame. *)
Definition grouped_by (df : DataFrame num) (g a : string)
  : Result (string * string * list (GroupRow num)) :=
  match resolve (columns df) g with
  | None => Raise (UnresolvedColumn g)
  | Some k =>
      match resolve (columns df) a with
      | None => Raise (UnresolvedColumn a)
      | Some c => Ok (k, c, grouped_rows k c (rows df))
      end
  end.

Definition mode_group (df : DataFrame num) (args : Args num) : Spark num unit :=
  match truthy (group_by args) with
  | None => raise GroupByRequired
  | Some group_by =>
      df_filtered <- lift (apply_filters df args) ;;
      print (GroupMode group_by (attribute args)) ;;
      kcg <- lift (grouped_by df_filtered group_by (attribute args)) ;;
      let '(k, c, grouped) := kcg in
      print (GroupedStatistics (firstn 50 grouped)) ;;
      match truthy (output args) with
      | Some path =>
          print (WritingGrouped path) ;;
          write_parquet (input args) path
            (grouped_frame df_filtered group_by k c grouped)
      | None => ret tt
      end
  end.

Definition main (args : Args num) : Spark num unit :=
  print (ReadingFrom (input args)) ;;
  df <- read_parquet (input args) ;;
  print (PrintSchema (schema df)) ;;
  if negb (in_columns (attribute args) (columns df)) then
    raise (AttributeNotFound (attribute args) (columns df))
  else
    match mode args with
    | Filter => mode_filter df args
    | Group => mode_group df args
    end.

End Program.

(** ** Reference definitions over the reals

    The textbook quantities the aggregates are compared with. *)

Definition Rsum (xs : list R) : R := fold_right Rplus 0%R xs.

Definition mean (xs : list R) : R := (Rsum xs / INR (length xs))%R.

Definition sum_sq_dev (xs : list R) : R :=
  Rsum (map (fun x => ((x - mean xs) * (x - mean xs))%R) xs).

(** The sample variance: the squared deviations over [n - 1]. *)
Definition sample_variance (xs : list R) : R :=
  (sum_sq_dev xs / (INR (length xs) - 1))%R.

(** The population variance, over [n]. *)
Definition population_variance (xs : list R) : R :=
  (sum_sq_dev xs / INR (length xs))%R.

(** A numeric cell or a NULL. *)
Definition number_or_null {num} (v : value num) : bool :=
  match v with VStr _ => false | _ => true end.

(** What a run reports of the data: counts, statistics and writes. *)
Definition reports_data {num} (p : Printed num) : bool :=
  match p with
  | ReadingFrom _ | PrintSchema _ | GroupMode _ _ => false
  | _ => true
  end.

(** ** The Report of the specification, read off the console

    The program builds no report value: it prints. The Report of a run is what
    its lines say. The matched row count is the count filter mode prints, or
    the sum of the counts of the groups shown; the statistics are those of the
    [Statistics] line, and a statistic that was never printed is null; the
    groups are those of the [GroupedStatistics] line. *)

Definition null_stats {num} : Stats num :=
  {| stat_min := VNull; stat_max := VNull; stat_avg := None; stat_stddev := None |}.

Record Report (num : Type) := {
  matched_row_count : nat;
  report_stats : Stats num;
  report_groups : option (list (GroupRow num));
}.
Arguments matched_row_count {num} r.
Arguments report_stats {num} r.
Arguments report_groups {num} r.

Definition report_line {num} (r : Report num) (p : Printed num) : Report num :=
  match p with
  | FilterMode _ n =>
      {| matched_row_count := n; report_stats := report_stats r;
         report_groups := report_groups r |}
  | Statistics st =>
      {| matched_row_count := matched_row_count r; report_stats := st;
         report_groups := report_groups r |}
  | GroupedStatistics gs =>
      {| matched_row_count := list_sum (map g_count gs);
         report_stats := report_stats r; report_groups := Some gs |}
  | _ => r
  end.

Definition report {num} (ps : list (Printed num)) : Report num :=
  fold_left report_line ps
    {| matched_row_count := O; report_stats := null_stats; report_groups := None |}.

(** A valid query on a frame: the attribute is a column and, in group
    mode, group_by is given and names a column. *)
Definition valid_query {num} (args : Args num) (df : DataFrame num) : Prop :=
  in_columns (attribute args) (columns df) = true /\
  match mode args with
  | Filter => True
  | Group => exists g, truthy (group_by args) = Some g /\ resolve (columns df) g <> None
  end.

(** ** Vocabulary of the proofs *)

(** The rows held by a list of groups. *)
Definition total {num} (gs : list (value num * list (gmap string (value num)))) : nat :=
  list_sum (map (fun p => length (snd p)) gs).

(** Every group holds at least one row, and only rows it was given. *)
Definition parts_of {num} (rs : list (gmap string (value num)))
    (gs : list (value num * list (gmap string (value num)))) : Prop :=
  Forall (fun p => snd p <> [] /\ incl (snd p) rs) gs.

(** The world after some more lines on the console. *)
Definition printed {num} (w : World num) (ps : list (Printed num)) : World num :=
  {| console := console w ++ ps; hdfs := hdfs w |}.

Definition Rsum_sq (xs : list R) : R := Rsum (map (fun x => (x * x)%R) xs).

(** The invariant of the running moments: the count, the mean, and the sum
    of squares less [n] times the squared mean. *)
Definition moments_inv (m : Moments R) (xs : list R) : Prop :=
  m_n m = length xs /\
  (INR (length xs) * m_avg m = Rsum xs)%R /\
  (m_m2 m = Rsum_sq xs - INR (length xs) * (m_avg m * m_avg m))%R.

(** ** Vocabulary of the further properties *)

(** Truth of a three-valued condition, as [df.filter] reads it. *)
Definition holds (o : option bool) : bool :=
  match o with Some true => true | _ => false end.

(** The time conditions [apply_filters] puts on a row of a frame with the
    columns [cols]. *)
Definition time_passes {num} {D : Double num} (cols : list string) (args : Args num)
    (r : gmap string (value num)) : bool :=
  if in_columns "tpep_pickup_datetime" cols then
    match resolve cols "tpep_pickup_datetime" with
    | Some t =>
        match truthy (start args) with
        | Some s => holds (sql_ge (cell r t) (VStr s))
        | None => true
        end &&
        match truthy (end_ args) with
        | Some e => holds (sql_le (cell r t) (VStr e))
        | None => true
        end
    | None => true
    end
  else true.

(** The bounds [apply_filters] puts on the attribute of a row. *)
Definition bounds_pass {num} {D : Double num} (cols : list string) (args : Args num)
    (r : gmap string (value num)) : bool :=
  match resolve cols (attribute args) with
  | Some a =>
      match min_value args with
      | Some m => holds (sql_ge (cell r a) (VDouble m))
      | None => true
      end &&
      match max_value args with
      | Some m => holds (sql_le (cell r a) (VDouble m))
      | None => true
      end
  | None => true
  end.

(** The one condition the filters of [apply_filters] amount to. *)
Definition row_passes {num} {D : Double num} (cols : list string) (args : Args num)
    (r : gmap string (value num)) : bool :=
  time_passes cols args r && bounds_pass cols args r.

(** A key that is compared exactly: anything but a double. *)
Definition discrete {num} (v : value num) : bool :=
  match v with VDouble _ => false | _ => true end.

Definition string_or_null {num} (v : value num) : bool :=
  match v with VNull | VStr _ => true | _ => false end.

Definition long_or_null {num} (v : value num) : bool :=
  match v with VNull | VLong _ => true | _ => false end.

(** The rows of [rs] whose cell in column [c] is the key [k]. *)
Definition rows_of_key {num} {D : Double num} (c : string) (k : value num)
    (rs : list (gmap string (value num))) : list (gmap string (value num)) :=
  List.filter (fun r => key_eqb (cell r c) k) rs.

(** The groups of [groupBy] are the rows of their keys. *)
Definition keyed {num} {D : Double num} (c : string)
    (rs : list (gmap string (value num)))
    (gs : list (value num * list (gmap string (value num)))) : Prop :=
  Forall (fun p => snd p = rows_of_key c (fst p) rs) gs.

(** A run that only adds lines to the console and only stores at [out]. *)
Definition grows {num} (out : option string) (w w' : World num) : Prop :=
  (exists new, console w' = console w ++ new) /\
  forall path, out <> Some path -> hdfs w' !! path = hdfs w !! path.

(** The line that announces a write, if there is an output path. *)
Definition writing {num} (line : string -> Printed num) (out : option string)
  : list (Printed num) :=
  match out with Some path => [line path] | None => [] end.

(** The store after a frame is written to the output path, if there is one. *)
Definition stored {num} (out : option string) (df : DataFrame num)
    (store : gmap string (DataFrame num)) : gmap string (DataFrame num) :=
  match out with Some path => <[path := df]> store | None => store end.

(** ** The scenarios of the specification, in binary64 *)

Module Scenario.

Definition trip (amt : value float) (zone pickup : string) : gmap string (value float) :=
  list_to_map [("amt", amt); ("zone", VStr zone); ("tpep_pickup_datetime", VStr pickup)].

Definition trip_schema : list (string * dtype) :=
  [("amt", LongType); ("zone", StringType); ("tpep_pickup_datetime", StringType)].

Definition trips : DataFrame float :=
  {| schema := trip_schema;
     rows := [trip (VLong 10) "A" "2016-01-01 08:00:00";
              trip (VLong 20) "A" "2016-01-02 09:30:00";
              trip (VLong 5) "B" "2016-01-03 17:45:00"] |}.

(** The same trips with one more, whose amount is missing. *)
Definition trips_with_null : DataFrame float :=
  {| schema := trip_schema;
     rows := rows trips ++ [trip VNull "B" "2016-01-04 12:00:00"] |}.

Definition taxi : string := "hdfs:///data/taxi".

Definition world : World float := {| console := []; hdfs := {[ taxi := trips ]} |}.

Definition world_with_null : World float :=
  {| console := []; hdfs := {[ taxi := trips_with_null ]} |}.

(** Three trips of 0.1 miles; 0x1.999999999999ap-4 is the double nearest 0.1. *)
Definition tenths : DataFrame float :=
  {| schema := [("trip_distance", DoubleType)];
     rows := [ {[ "trip_distance" := VDouble 0x1.999999999999ap-4%float ]};
               {[ "trip_distance" := VDouble 0x1.999999999999ap-4%float ]};
               {[ "trip_distance" := VDouble 0x1.999999999999ap-4%float ]} ] |}.

Definition world_of_tenths : World float :=
  {| console := []; hdfs := {[ taxi := tenths ]} |}.

(** The two amounts of zone A, exactly. *)
Definition two_amounts : list (gmap string (value R)) :=
  [ {[ "amt" := VLong 10 ]}; {[ "amt" := VLong 20 ]} ].

(** Three trips of one tenth of a mile, exactly. *)
Definition tenths_exact : list (gmap string (value R)) :=
  [ {[ "trip_distance" := VDouble (1 / 10)%R ]};
    {[ "trip_distance" := VDouble (1 / 10)%R ]};
    {[ "trip_distance" := VDouble (1 / 10)%R ]} ].

Definition query (m : Mode) (a : string) (lo hi : option float)
    (s e g o : option string) : Args float :=
  {| mode := m; input := taxi; attribute := a; min_value := lo; max_value := hi;
     start := s; end_ := e; group_by := g; output := o |}.

End Scenario.

(** ** Trips with a column named as an aggregate *)

Module Passengers.

(** The amount of a trip and its passenger count, in a column [count]. *)
Definition trips : DataFrame float :=
  {| schema := [("amt", LongType); ("count", LongType)];
     rows := [ {[ "amt" := VLong 10; "count" := VLong 1 ]};
               {[ "amt" := VLong 20; "count" := VLong 2 ]} ] |}.

Definition world : World float := {| console := []; hdfs := {[ Scenario.taxi := trips ]} |}.

(** The amounts from 100 on by passenger count, to be written. *)
Definition query : Args float :=
  Scenario.query Group "amt" (Some 100%float) None None None (Some "count")
    (Some "hdfs:///out").

End Passengers.

(** ** The same trips, in exact arithmetic *)

Module ExactScenario.

Definition trips : DataFrame R :=
  {| schema := [("amt", LongType)]; rows := Scenario.two_amounts |}.

(** A query for the amounts between [lo] and [hi]. *)
Definition between (lo hi : R) : Args R :=
  {| mode := Filter; input := Scenario.taxi; attribute := "amt";
     min_value := Some lo; max_value := Some hi;
     start := None; end_ := None; group_by := None; output := None |}.

End ExactScenario.

(** ** Column resolution *)

Lemma same_column_refl (a : string) : same_column a a = true.
Proof. unfold same_column. apply String.eqb_refl. Qed.

Lemma same_column_sym (a b : string) : same_column a b = same_column b a.
Proof. unfold same_column. apply String.eqb_sym. Qed.

Lemma in_columns_In (a : string) (cols : list string) :
  in_columns a cols = true <-> In a cols.
Proof.
  unfold in_columns. rewrite existsb_exists. split.
  - intros [x [Hx Heq]]. apply String.eqb_eq in Heq. now subst.
  - intros H. exists a. split; [exact H | apply String.eqb_refl].
Qed.

Lemma resolve_in_columns (a : string) (cols : list string) :
  in_columns a cols = true -> exists c, resolve cols a = Some c /\ In c cols.
Proof.
  intros H. apply in_columns_In in H. unfold resolve.
  destruct (List.find (same_column a) cols) as [c|] eqn:E.
  - exists c. split; [reflexivity |]. now apply find_some in E.
  - pose proof (find_none _ _ E a H) as Hn. now rewrite same_column_refl in Hn.
Qed.

Lemma resolve_distinct (a : string) (cols : list string) :
  distinct_columns cols = true -> In a cols -> resolve cols a = Some a.
Proof.
  unfold resolve. induction cols as [|c cs IH]; simpl; intros Hd Hin; [easy|].
  apply andb_true_iff in Hd as [Hc Hd]. apply negb_true_iff in Hc.
  destruct (same_column a c) eqn:E.
  - destruct Hin as [->|Hin]; [reflexivity|]. exfalso.
    assert (existsb (same_column c) cs = true) as Hex.
    { apply existsb_exists. exists a. split; [exact Hin|]. now rewrite same_column_sym. }
    congruence.
  - destruct Hin as [->|Hin].
    + now rewrite same_column_refl in E.
    + now apply IH.
Qed.

(** ** The filter stage *)

Section FilterFacts.
Context {num : Type} {D : Double num}.
Implicit Types (df : DataFrame num) (args : Args num) (v : value num).

Lemma sql_le_not_null (a b : value num) :
  sql_le a b = Some true -> a <> VNull /\ b <> VNull.
Proof. destruct a, b; simpl; intros H; split; congruence. Qed.

Lemma where_columns cond df : columns (where_ cond df) = columns df.
Proof. reflexivity. Qed.

Lemma where_rows cond df r :
  In r (rows (where_ cond df)) <-> In r (rows df) /\ cond r = Some true.
Proof.
  unfold where_; simpl. rewrite filter_In. split; intros [H1 H2]; split; trivial.
  - destruct (cond r) as [[|]|]; congruence.
  - now rewrite H2.
Qed.

(** A comparison filter either fails to resolve its column or keeps the
    schema and a part of the rows, each with a non-null cell. *)
Lemma filter_ge_ok df name v df' :
  filter_ge df name v = Ok df' ->
  exists c, resolve (columns df) name = Some c /\ schema df' = schema df /\
    forall r, In r (rows df') <-> In r (rows df) /\ sql_ge (cell r c) v = Some true.
Proof.
  unfold filter_ge. destruct (resolve (columns df) name) as [c|]; [|discriminate].
  intros [= <-]. exists c. split; [reflexivity|]. split; [reflexivity|].
  intros r. apply where_rows.
Qed.

Lemma filter_le_ok df name v df' :
  filter_le df name v = Ok df' ->
  exists c, resolve (columns df) name = Some c /\ schema df' = schema df /\
    forall r, In r (rows df') <-> In r (rows df) /\ sql_le (cell r c) v = Some true.
Proof.
  unfold filter_le. destruct (resolve (columns df) name) as [c|]; [|discriminate].
  intros [= <-]. exists c. split; [reflexivity|]. split; [reflexivity|].
  intros r. apply where_rows.
Qed.

Lemma columns_of_schema df df' : schema df' = schema df -> columns df' = columns df.
Proof. unfold columns. now intros ->. Qed.

Lemma apply_filters_stages df args :
  apply_filters df args = and_then (time_window df args) (fun df1 => bounds df1 args).
Proof. reflexivity. Qed.

Lemma time_window_ok df args :
  exists df1, time_window df args = Ok df1 /\ schema df1 = schema df /\
    forall r, In r (rows df1) -> In r (rows df).
Proof.
  unfold time_window. destruct (in_columns _ (columns df)) eqn:Hin.
  2: { exists df. auto. }
  destruct (resolve_in_columns _ _ Hin) as [c [Hc _]].
  assert (exists d, match truthy (start args) with
                    | Some s => filter_ge df "tpep_pickup_datetime" (VStr s)
                    | None => Ok df
                    end = Ok d /\ schema d = schema df /\
                    forall r, In r (rows d) -> In r (rows df)) as [d [-> [Hd Hr]]].
  { destruct (truthy (start args)) as [s|]; [|exists df; auto].
    unfold filter_ge. rewrite Hc. eexists. split; [reflexivity|]. split; [reflexivity|].
    intros r Hr. now apply where_rows in Hr. }
  simpl. destruct (truthy (end_ args)) as [e|]; [|exists d; auto].
  unfold filter_le. rewrite (columns_of_schema _ _ Hd), Hc.
  eexists. split; [reflexivity|]. split; [exact Hd|].
  intros r Hin'. apply where_rows in Hin'. now apply Hr.
Qed.

Lemma bounds_ok df args df' :
  bounds df args = Ok df' ->
  schema df' = schema df /\ forall r, In r (rows df') -> In r (rows df).
Proof.
  unfold bounds, and_then.
  destruct (min_value args) as [lo|]; destruct (max_value args) as [hi|].
  - destruct (filter_ge df _ _) as [d|] eqn:E1; [|discriminate]. intros E2.
    apply filter_ge_ok in E1 as [c [_ [Hs Hr]]].
    apply filter_le_ok in E2 as [c' [_ [Hs' Hr']]].
    split; [congruence|]. intros r H. now apply Hr, Hr'.
  - destruct (filter_ge df _ _) as [d|] eqn:E1; [|discriminate]. intros [= <-].
    apply filter_ge_ok in E1 as [c [_ [Hs Hr]]]. split; [exact Hs|].
    intros r H. now apply Hr.
  - intros E2. apply filter_le_ok in E2 as [c' [_ [Hs' Hr']]]. split; [exact Hs'|].
    intros r H. now apply Hr'.
  - intros [= <-]. auto.
Qed.

Lemma bounds_total df args :
  in_columns (attribute args) (columns df) = true -> exists df', bounds df args = Ok df'.
Proof.
  intros Hin. destruct (resolve_in_columns _ _ Hin) as [c [Hc _]].
  unfold bounds, and_then, filter_ge, filter_le. rewrite Hc.
  destruct (min_value args), (max_value args); rewrite ?where_columns, ?Hc; eauto.
Qed.

Lemma bounds_result df args :
  (exists df', bounds df args = Ok df') \/
  bounds df args = Raise (UnresolvedColumn (attribute args)).
Proof.
  unfold bounds, and_then, filter_ge, filter_le.
  destruct (resolve (columns df) (attribute args)) as [c|] eqn:Hc.
  - left. destruct (min_value args), (max_value args);
      rewrite ?where_columns, ?Hc; eauto.
  - destruct (min_value args); [right; reflexivity|].
    destruct (max_value args); [right; now rewrite Hc | left; eauto].
Qed.

Lemma apply_filters_ok df args df' :
  apply_filters df args = Ok df' ->
  schema df' = schema df /\ forall r, In r (rows df') -> In r (rows df).
Proof.
  rewrite apply_filters_stages.
  destruct (time_window_ok df args) as [df1 [-> [Hs1 Hr1]]]. simpl. intros Hb.
  apply bounds_ok in Hb as [Hs Hr]. split; [congruence | auto].
Qed.

Lemma apply_filters_total df args :
  in_columns (attribute args) (columns df) = true ->
  exists df', apply_filters df args = Ok df'.
Proof.
  intros Hin. rewrite apply_filters_stages.
  destruct (time_window_ok df args) as [df1 [-> [Hs1 _]]]. simpl.
  apply bounds_total. now rewrite (columns_of_schema _ _ Hs1).
Qed.

(** C7: a query with no min_value, max_value, start or end (an empty
    start or end counts as none, as in Python) filters nothing: the frame
    comes back as it is, the same rows in the same order. *)
Theorem apply_filters_no_filter df args :
  min_value args = None -> max_value args = None ->
  truthy (start args) = None -> truthy (end_ args) = None ->
  apply_filters df args = Ok df.
Proof.
  intros Hlo Hhi Hs He. unfold apply_filters. rewrite Hlo, Hhi, Hs, He. simpl.
  now destruct (in_columns _ _).
Qed.

(** C9: with a min_value or a max_value, every row that passes the filters
    has a non-null cell in the (resolved) attribute column. *)
Theorem bounded_rows_not_null df args df' r :
  apply_filters df args = Ok df' ->
  min_value args <> None \/ max_value args <> None ->
  In r (rows df') ->
  exists c, resolve (columns df) (attribute args) = Some c /\ cell r c <> VNull.
Proof.
  rewrite apply_filters_stages.
  destruct (time_window_ok df args) as [df1 [-> [Hs1 _]]]. simpl.
  unfold bounds, and_then. intros Hb Hsome Hin.
  rewrite <- (columns_of_schema _ _ Hs1).
  destruct (min_value args) as [lo|].
  - destruct (filter_ge df1 _ _) as [d|] eqn:E1; [|discriminate].
    apply filter_ge_ok in E1 as [c [Hc [Hs Hr]]]. exists c. split; [exact Hc|].
    assert (In r (rows d)) as Hd.
    { destruct (max_value args) as [hi|].
      - apply filter_le_ok in Hb as [c' [_ [_ Hr']]]. now apply Hr'.
      - now injection Hb as ->. }
    apply Hr in Hd as [_ Hge]. unfold sql_ge in Hge.
    now apply sql_le_not_null in Hge.
  - destruct (max_value args) as [hi|]; [|now destruct Hsome].
    apply filter_le_ok in Hb as [c [Hc [_ Hr]]]. exists c. split; [exact Hc|].
    apply Hr in Hin as [_ Hle]. now apply sql_le_not_null in Hle.
Qed.

(** C4 (as the code has it): the filters never reject a start or an end.
    Whatever the two strings are, [apply_filters] returns a frame, unless the
    attribute itself names no column: that is its only error. *)
Theorem apply_filters_accepts_any_time_bound df args :
  (exists df', apply_filters df args = Ok df' /\ schema df' = schema df /\
     forall r, In r (rows df') -> In r (rows df)) \/
  (in_columns (attribute args) (columns df) = false /\
   apply_filters df args = Raise (UnresolvedColumn (attribute args))).
Proof.
  rewrite apply_filters_stages.
  destruct (time_window_ok df args) as [df1 [-> [Hs1 Hr1]]]. simpl.
  destruct (in_columns (attribute args) (columns df)) eqn:Hin.
  - left. rewrite <- (columns_of_schema _ _ Hs1) in Hin.
    destruct (bounds_total df1 args Hin) as [df' E]. exists df'.
    split; [exact E|]. apply bounds_ok in E as [Hs Hr].
    split; [congruence | auto].
  - rewrite <- (columns_of_schema _ _ Hs1) in Hin.
    destruct (bounds_result df1 args) as [[df' E]|E]; [left|right; auto].
    exists df'. split; [exact E|]. apply bounds_ok in E as [Hs Hr].
    split; [congruence | auto].
Qed.

End FilterFacts.

Lemma apply_filters_no_filter_witness :
  apply_filters Scenario.trips
    (Scenario.query Filter "amt" None None None None None None) = Ok Scenario.trips.
Proof. apply apply_filters_no_filter; reflexivity. Defined.

Lemma bounded_rows_not_null_witness :
  apply_filters Scenario.trips_with_null
    (Scenario.query Filter "amt" (Some 8%float) None None None None None)
  = Ok {| schema := Scenario.trip_schema;
          rows := [Scenario.trip (VLong 10) "A" "2016-01-01 08:00:00";
                   Scenario.trip (VLong 20) "A" "2016-01-02 09:30:00"] |} /\
  exists c, resolve (columns Scenario.trips_with_null) "amt" = Some c /\
            cell (Scenario.trip (VLong 20) "A" "2016-01-02 09:30:00") c <> VNull.
Proof.
  assert (apply_filters Scenario.trips_with_null
            (Scenario.query Filter "amt" (Some 8%float) None None None None None)
          = Ok {| schema := Scenario.trip_schema;
                  rows := [Scenario.trip (VLong 10) "A" "2016-01-01 08:00:00";
                           Scenario.trip (VLong 20) "A" "2016-01-02 09:30:00"] |}) as E.
  { vm_compute. reflexivity. }
  split; [exact E|].
  apply (bounded_rows_not_null _ _ _ _ E); [left; discriminate | simpl; auto].
Defined.

(** C4, scenario 6: start = "not-a-date" raises nothing. The string is
    compared with the pick-up strings, all of which sort before it. *)
Lemma not_a_date_is_accepted :
  apply_filters Scenario.trips
    (Scenario.query Filter "amt" None None (Some "not-a-date") None None None)
  = Ok {| schema := Scenario.trip_schema; rows := [] |}.
Proof. vm_compute. reflexivity. Qed.

(** ** The aggregates and NULL *)

Section AggregateFacts.
Context {num : Type} {D : Double num}.
Implicit Types (v acc : value num) (vs : list (value num)) (xs : list num).
Implicit Types (r : gmap string (value num)) (rs : list (gmap string (value num))).

Lemma least_null acc : least acc VNull = acc.
Proof. now destruct acc. Qed.

Lemma greatest_null acc : greatest acc VNull = acc.
Proof. now destruct acc. Qed.

Lemma least_not_null acc v : acc <> VNull \/ v <> VNull -> least acc v <> VNull.
Proof.
  unfold least. destruct acc, v; try destruct (sql_le _ _) as [[|]|];
    intros [H|H]; congruence.
Qed.

Lemma greatest_not_null acc v : acc <> VNull \/ v <> VNull -> greatest acc v <> VNull.
Proof.
  unfold greatest. destruct acc, v; try destruct (sql_ge _ _) as [[|]|];
    intros [H|H]; congruence.
Qed.

(** A fold that skips NULL and never forgets a value is NULL exactly on
    all-NULL input. *)
Lemma fold_null_iff (f : value num -> value num -> value num) :
  (forall acc, f acc VNull = acc) ->
  (forall acc v, acc <> VNull \/ v <> VNull -> f acc v <> VNull) ->
  forall vs acc,
    fold_left f vs acc = VNull <-> acc = VNull /\ Forall (fun v => v = VNull) vs.
Proof.
  intros Hnull Hkeep. induction vs as [|v vs IH]; intros acc; simpl.
  - split; [auto | now intros [-> _]].
  - rewrite IH. split.
    + intros [Hf Hall].
      assert (acc = VNull /\ v = VNull) as [-> ->].
      { destruct acc; [destruct v; [auto|..]|..];
          exfalso; eapply Hkeep; try exact Hf; (left + right); discriminate. }
      auto.
    + intros [-> Hall]. inversion Hall as [|? ? -> Hall']. rewrite Hnull. auto.
Qed.

Lemma F_min_null_iff vs : F_min vs = VNull <-> Forall (fun v => v = VNull) vs.
Proof.
  unfold F_min. rewrite (fold_null_iff least least_null least_not_null). tauto.
Qed.

Lemma F_max_null_iff vs : F_max vs = VNull <-> Forall (fun v => v = VNull) vs.
Proof.
  unfold F_max. rewrite (fold_null_iff greatest greatest_null greatest_not_null). tauto.
Qed.

Lemma fold_skips_null (f : value num -> value num -> value num) :
  (forall acc, f acc VNull = acc) ->
  forall vs1 vs2 acc,
    fold_left f (vs1 ++ VNull :: vs2) acc = fold_left f (vs1 ++ vs2) acc.
Proof. intros Hnull vs1 vs2 acc. rewrite !fold_left_app. simpl. now rewrite Hnull. Qed.

Lemma doubles_app vs1 vs2 : doubles (vs1 ++ vs2) = doubles vs1 ++ doubles vs2.
Proof. unfold doubles. apply omap_app. Qed.

Lemma doubles_skip_null vs1 vs2 : doubles (vs1 ++ VNull :: vs2) = doubles (vs1 ++ vs2).
Proof. now rewrite !doubles_app. Qed.

Lemma F_avg_null_iff vs : F_avg vs = None <-> doubles vs = [].
Proof. unfold F_avg. destruct (doubles vs); split; congruence. Qed.

Lemma moments_count xs (m : Moments num) :
  m_n (fold_left moments_update xs m) = (length xs + m_n m)%nat.
Proof.
  revert m. induction xs as [|x xs IH]; intros m; simpl; [reflexivity|].
  rewrite IH. simpl. lia.
Qed.

Lemma stddev_samp_null_iff xs : stddev_samp xs = None <-> (length xs < 2)%nat.
Proof.
  unfold stddev_samp, moments_of. rewrite moments_count. simpl.
  rewrite Nat.add_0_r. destruct xs as [|x [|y xs]]; simpl; split; intros H;
    try reflexivity; try lia; discriminate.
Qed.

Lemma F_stddev_null_iff vs : F_stddev vs = None <-> (length (doubles vs) < 2)%nat.
Proof. apply stddev_samp_null_iff. Qed.

(** A row with a NULL cell leaves the four statistics as they are. *)
Lemma agg_skips_null c rs1 r rs2 :
  cell r c = VNull -> agg c (rs1 ++ r :: rs2) = agg c (rs1 ++ rs2).
Proof.
  intros Hr. unfold agg, F_min, F_max, F_avg, F_stddev.
  rewrite !map_app. simpl. rewrite Hr.
  rewrite (fold_skips_null least least_null), (fold_skips_null greatest greatest_null).
  now rewrite doubles_skip_null.
Qed.

End AggregateFacts.

(** ** Grouping *)

Section GroupFacts.
Context {num : Type} {D : Double num}.
Implicit Types (r : gmap string (value num)) (rs part : list (gmap string (value num))).
Implicit Types (gs : list (value num * list (gmap string (value num)))).
Implicit Types (g h : GroupRow num) (hs : list (GroupRow num)).

Lemma add_to_group_total k r gs : total (add_to_group k r gs) = S (total gs).
Proof.
  unfold total. induction gs as [|[k' part] gs IH]; simpl; [reflexivity|].
  destruct (key_eqb k k'); simpl.
  - rewrite length_app. simpl. lia.
  - rewrite IH. lia.
Qed.

Lemma fold_add_total c rs gs :
  total (fold_left (fun gs r => add_to_group (group_key (cell r c)) r gs) rs gs)
  = (length rs + total gs)%nat.
Proof.
  revert gs. induction rs as [|r rs IH]; intros gs; simpl; [reflexivity|].
  rewrite IH, add_to_group_total. lia.
Qed.

Lemma groupBy_total c rs : total (groupBy c rs) = length rs.
Proof. unfold groupBy. rewrite fold_add_total. unfold total. simpl. lia. Qed.

Lemma add_to_group_parts k r rs gs :
  In r rs -> parts_of rs gs -> parts_of rs (add_to_group k r gs).
Proof.
  intros Hr. unfold parts_of. induction gs as [|[k' part] gs IH]; simpl; intros Hp.
  - constructor; [|constructor]. simpl. split; [discriminate|].
    intros x [<-|[]]. exact Hr.
  - inversion Hp as [|? ? [Hne Hi] Hp']; subst. simpl in *.
    destruct (key_eqb k k'); constructor; simpl; auto.
    split.
    + intros E. apply app_eq_nil in E as [_ E]. discriminate.
    + apply incl_app; [exact Hi|]. intros x [<-|[]]. exact Hr.
Qed.

Lemma fold_add_parts c rs all gs :
  incl rs all -> parts_of all gs ->
  parts_of all (fold_left (fun gs r => add_to_group (group_key (cell r c)) r gs) rs gs).
Proof.
  revert gs. induction rs as [|r rs IH]; intros gs Hi Hp; simpl; [exact Hp|].
  apply IH.
  - intros x Hx. apply Hi. now right.
  - apply add_to_group_parts; [apply Hi; now left | exact Hp].
Qed.

Lemma groupBy_parts c rs : parts_of rs (groupBy c rs).
Proof. apply fold_add_parts; [apply incl_refl | constructor]. Qed.

Lemma insert_by_key_In g h hs : In h (insert_by_key g hs) <-> h = g \/ In h hs.
Proof.
  induction hs as [|x hs IH]; simpl.
  - split; intros [H|H]; auto.
  - destruct (key_leb (g_key g) (g_key x)); simpl; [|rewrite IH];
      split; intros H; intuition auto.
Qed.

Lemma orderBy_In h hs : In h (orderBy hs) <-> In h hs.
Proof.
  induction hs as [|x hs IH]; simpl; [reflexivity|].
  rewrite insert_by_key_In, IH. split; intros [H|H]; auto.
Qed.

Lemma insert_by_key_counts g hs :
  list_sum (map g_count (insert_by_key g hs))
  = (g_count g + list_sum (map g_count hs))%nat.
Proof.
  induction hs as [|x hs IH]; simpl; [reflexivity|].
  destruct (key_leb (g_key g) (g_key x)); simpl; [reflexivity|]. rewrite IH. lia.
Qed.

Lemma orderBy_counts hs :
  list_sum (map g_count (orderBy hs)) = list_sum (map g_count hs).
Proof.
  induction hs as [|x hs IH]; simpl; [reflexivity|].
  now rewrite insert_by_key_counts, IH.
Qed.

(** The counts of the groups add up to the number of rows grouped. *)
Lemma grouped_rows_counts k a rs :
  list_sum (map g_count (grouped_rows k a rs)) = length rs.
Proof.
  unfold grouped_rows. rewrite orderBy_counts, map_map. simpl.
  apply groupBy_total.
Qed.

(** A group row is the aggregate of a non-empty part of the rows. *)
Lemma grouped_rows_parts k a rs g :
  In g (grouped_rows k a rs) ->
  exists part, part <> [] /\ incl part rs /\
               g_count g = length part /\ g_stats g = agg a part.
Proof.
  unfold grouped_rows. rewrite orderBy_In, in_map_iff. intros [[key part] [<- Hin]].
  pose proof (groupBy_parts k rs) as Hp. unfold parts_of in Hp.
  rewrite List.Forall_forall in Hp. destruct (Hp _ Hin) as [Hne Hi].
  exists part. auto.
Qed.

Lemma grouped_rows_nil k a : grouped_rows k a [] = [].
Proof. reflexivity. Qed.

End GroupFacts.

(** ** Null fields and row counts *)

(** C2 (as the code has it): in every Stats value, of the whole frame or of
    a group, min and max are null exactly when every attribute cell of the
    partition is null, the mean exactly when no cell reads as a number, and
    the deviation exactly when fewer than two do. The count is the number of
    rows of the partition, at least one for a group, so null fields do occur
    with a positive count. *)
Theorem stats_null_fields {num : Type} {D : Double num} (c : string)
    (rs : list (gmap string (value num))) :
  (stat_min (agg c rs) = VNull <->
     Forall (fun v => v = VNull) (map (fun r => cell r c) rs)) /\
  (stat_max (agg c rs) = VNull <->
     Forall (fun v => v = VNull) (map (fun r => cell r c) rs)) /\
  (stat_avg (agg c rs) = None <-> doubles (map (fun r => cell r c) rs) = []) /\
  (stat_stddev (agg c rs) = None <->
     (length (doubles (map (fun r => cell r c) rs)) < 2)%nat) /\
  (forall k g, In g (grouped_rows k c rs) ->
     exists part, part <> [] /\ incl part rs /\
       g_count g = length part /\ (0 < g_count g)%nat /\ g_stats g = agg c part).
Proof.
  split; [apply F_min_null_iff|]. split; [apply F_max_null_iff|].
  split; [apply F_avg_null_iff|]. split; [apply F_stddev_null_iff|].
  intros k g Hg. destruct (grouped_rows_parts _ _ _ _ Hg) as [part [Hne [Hi [Hc Hs]]]].
  exists part. repeat split; auto. rewrite Hc. destruct part; [easy | simpl; lia].
Qed.

(** C2, scenario 3: zone B has one trip, so its count is 1 and its
    deviation is null. *)
Lemma single_row_group_has_null_stddev :
  main (Scenario.query Group "amt" None None None None (Some "zone") None)
       Scenario.world
  = (Ok tt,
     {| console :=
          [ReadingFrom Scenario.taxi; PrintSchema Scenario.trip_schema;
           GroupMode "zone" "amt";
           GroupedStatistics
             [{| g_key := VStr "A"; g_count := 2;
                 g_stats := {| stat_min := VLong 10; stat_max := VLong 20;
                               stat_avg := Some 15%float;
                               stat_stddev := Some 0x1.c48c6001f0ac0p+2%float |} |};
              {| g_key := VStr "B"; g_count := 1;
                 g_stats := {| stat_min := VLong 5; stat_max := VLong 5;
                               stat_avg := Some 5%float;
                               stat_stddev := None |} |}]];
        hdfs := hdfs Scenario.world |}).
Proof. vm_compute. reflexivity. Qed.

(** C3 (as the code has it): a row whose attribute is null adds nothing to
    min, max, mean and deviation, but it is counted: the counts of the groups
    add up to the number of filtered rows, that row included. *)
Theorem null_attribute_row_is_counted {num : Type} {D : Double num} (c : string)
    (rs1 rs2 : list (gmap string (value num))) (r : gmap string (value num)) :
  cell r c = VNull ->
  agg c (rs1 ++ r :: rs2) = agg c (rs1 ++ rs2) /\
  forall k,
    list_sum (map g_count (grouped_rows k c (rs1 ++ r :: rs2)))
    = length (rs1 ++ r :: rs2) /\
    list_sum (map g_count (grouped_rows k c (rs1 ++ r :: rs2)))
    = S (list_sum (map g_count (grouped_rows k c (rs1 ++ rs2)))).
Proof.
  intros Hr. split; [now apply agg_skips_null|]. intros k.
  rewrite !grouped_rows_counts. split; [reflexivity|].
  rewrite !length_app. simpl. lia.
Qed.

Lemma null_attribute_row_is_counted_witness :
  cell (Scenario.trip VNull "B" "2016-01-04 12:00:00") "amt" = VNull /\
  agg "amt" (rows Scenario.trips_with_null) = agg "amt" (rows Scenario.trips) /\
  list_sum (map g_count (grouped_rows "zone" "amt" (rows Scenario.trips_with_null)))
  = 4%nat.
Proof.
  split; [reflexivity|].
  destruct (null_attribute_row_is_counted "amt" (rows Scenario.trips) []
              (Scenario.trip VNull "B" "2016-01-04 12:00:00") eq_refl) as [Ha Hk].
  split.
  - etransitivity; [exact Ha|]. now rewrite app_nil_r.
  - exact (proj1 (Hk "zone")).
Defined.

(** C3: the trip with no amount is counted. Filter mode reports 4 rows
    with the statistics of the three amounts; group mode reports 2 rows in
    zone B with the statistics of its one amount. *)
Lemma null_amount_is_counted_in_its_group :
  main (Scenario.query Filter "amt" None None None None None None)
       Scenario.world_with_null
  = (Ok tt,
     {| console :=
          [ReadingFrom Scenario.taxi; PrintSchema Scenario.trip_schema;
           FilterMode "amt" 4;
           Statistics {| stat_min := VLong 5; stat_max := VLong 20;
                         stat_avg := Some 0x1.7555555555555p+3%float;
                         stat_stddev := Some 0x1.e8ceddf2332dep+2%float |}];
        hdfs := hdfs Scenario.world_with_null |}) /\
  main (Scenario.query Group "amt" None None None None (Some "zone") None)
       Scenario.world_with_null
  = (Ok tt,
     {| console :=
          [ReadingFrom Scenario.taxi; PrintSchema Scenario.trip_schema;
           GroupMode "zone" "amt";
           GroupedStatistics
             [{| g_key := VStr "A"; g_count := 2;
                 g_stats := {| stat_min := VLong 10; stat_max := VLong 20;
                               stat_avg := Some 15%float;
                               stat_stddev := Some 0x1.c48c6001f0ac0p+2%float |} |};
              {| g_key := VStr "B"; g_count := 2;
                 g_stats := {| stat_min := VLong 5; stat_max := VLong 5;
                               stat_avg := Some 5%float;
                               stat_stddev := None |} |}]];
        hdfs := hdfs Scenario.world_with_null |}).
Proof. split; vm_compute; reflexivity. Qed.

(** ** Exact arithmetic: the deviation is the sample deviation *)

Section ExactFacts.
Local Open Scope R_scope.
Implicit Types (x y c lo hi : R) (xs : list R).

Lemma Rsum_app xs ys : Rsum (xs ++ ys) = Rsum xs + Rsum ys.
Proof. unfold Rsum. induction xs as [|x xs IH]; simpl; [lra | rewrite IH; lra]. Qed.

Lemma dsum_exact xs : dsum xs = Rsum xs.
Proof.
  unfold dsum. simpl. assert (forall a, fold_left Rplus xs a = a + Rsum xs) as H.
  { induction xs as [|x xs IH]; intros a; simpl; [lra | rewrite IH; lra]. }
  rewrite H. lra.
Qed.

Lemma of_nat_exact (n : nat) : IZR (Z.of_nat n) = INR n.
Proof. symmetry. apply INR_IZR_INZ. Qed.

(** The squared deviations from any centre, by the two running sums. *)
Lemma Rsum_sq_dev c xs :
  Rsum (map (fun x => (x - c) * (x - c)) xs)
  = Rsum_sq xs - 2 * c * Rsum xs + INR (length xs) * (c * c).
Proof.
  unfold Rsum_sq, Rsum. induction xs as [|x xs IH].
  - simpl. lra.
  - cbn [map fold_right length]. rewrite IH, S_INR. lra.
Qed.

Lemma moments_inv_step (m : Moments R) xs x :
  moments_inv m xs -> moments_inv (moments_update m x) (xs ++ [x]).
Proof.
  intros [Hn [Havg Hm2]]. unfold moments_inv, moments_update.
  cbn [m_n m_avg m_m2 of_Z dadd dsub dmul ddiv exact].
  rewrite Hn, of_nat_exact, length_app, Nat.add_comm. cbn [length Nat.add].
  unfold Rsum_sq. rewrite map_app, !Rsum_app. cbn [map]. unfold Rsum at 2 4.
  cbn [fold_right]. fold (Rsum_sq xs). rewrite S_INR.
  pose proof (pos_INR (length xs)) as Hpos.
  split; [reflexivity|]. split.
  - rewrite <- Havg. field. lra.
  - rewrite Hm2. field. lra.
Qed.

Lemma moments_of_inv xs : moments_inv (moments_of xs) xs.
Proof.
  induction xs as [|x xs IH] using rev_ind.
  - unfold moments_inv, moments_of, Rsum_sq, Rsum. simpl. repeat split; lra.
  - unfold moments_of. rewrite fold_left_app. simpl. now apply moments_inv_step.
Qed.

Lemma moments_m2_exact xs : m_m2 (moments_of xs) = sum_sq_dev xs.
Proof.
  destruct (moments_of_inv xs) as [Hn [Havg Hm2]].
  unfold sum_sq_dev. rewrite Rsum_sq_dev, Hm2.
  destruct xs as [|x xs].
  - unfold mean, Rsum_sq, Rsum. simpl. lra.
  - assert (m_avg (moments_of (x :: xs)) = mean (x :: xs)) as ->.
    { unfold mean. rewrite <- Havg. field. apply not_0_INR. discriminate. }
    assert (Rsum (x :: xs) = INR (length (x :: xs)) * mean (x :: xs)) as ->.
    { unfold mean. field. apply not_0_INR. discriminate. }
    ring.
Qed.

Lemma stddev_samp_exact xs :
  (2 <= length xs)%nat -> stddev_samp xs = Some (R_sqrt.sqrt (sample_variance xs)).
Proof.
  intros Hlen. unfold stddev_samp. rewrite moments_m2_exact.
  destruct (moments_of_inv xs) as [Hn _]. rewrite Hn. unfold sample_variance.
  destruct (length xs) as [|[|n]] eqn:E; try lia.
  cbn [dsqrt ddiv dsub of_Z exact]. now rewrite of_nat_exact.
Qed.

Lemma sum_sq_dev_nonneg xs : 0 <= sum_sq_dev xs.
Proof.
  unfold sum_sq_dev. generalize (mean xs). intros c. unfold Rsum.
  induction xs as [|x xs IH]; simpl; [lra|].
  pose proof (Rle_0_sqr (x - c)) as Hsq. unfold Rsqr in Hsq. lra.
Qed.

Lemma sample_variance_nonneg xs : (2 <= length xs)%nat -> 0 <= sample_variance xs.
Proof.
  intros Hlen. unfold sample_variance. apply le_INR in Hlen. simpl in Hlen.
  pose proof (sum_sq_dev_nonneg xs).
  apply Rmult_le_pos; [assumption|]. left. apply Rinv_0_lt_compat. lra.
Qed.


(** *** The mean lies between min and max *)

Implicit Types (v acc : value R) (vs : list (value R)).

Lemma Rleb_le x y : Rleb x y = true <-> x <= y.
Proof. unfold Rleb. destruct (Rle_dec x y); split; intros; try assumption; easy. Qed.

Lemma Zleb_Rleb (a b : Z) : (a <=? b)%Z = Rleb (IZR a) (IZR b).
Proof.
  unfold Rleb. destruct (Rle_dec (IZR a) (IZR b)) as [H|H].
  - apply Z.leb_le. now apply le_IZR.
  - apply Z.leb_gt. apply lt_IZR. lra.
Qed.

Lemma to_double_number v :
  number_or_null v = true -> v <> VNull -> exists x, to_double v = Some x.
Proof. destruct v; simpl; intros; try easy; eauto. Qed.

Lemma sql_le_exact v w x y :
  number_or_null v = true -> number_or_null w = true ->
  to_double v = Some x -> to_double w = Some y -> sql_le v w = Some (Rleb x y).
Proof.
  destruct v, w; simpl; try discriminate; intros _ _ [= <-] [= <-];
    try reflexivity. now rewrite Zleb_Rleb.
Qed.

Lemma least_number acc v :
  number_or_null acc = true -> number_or_null v = true ->
  number_or_null (least acc v) = true.
Proof.
  unfold least. intros Ha Hv.
  destruct acc, v; try destruct (sql_le _ _) as [[|]|]; auto.
Qed.

Lemma greatest_number acc v :
  number_or_null acc = true -> number_or_null v = true ->
  number_or_null (greatest acc v) = true.
Proof.
  unfold greatest. intros Ha Hv.
  destruct acc, v; try destruct (sql_ge _ _) as [[|]|]; auto.
Qed.

(** [least] is below both of its arguments, [greatest] above. *)
Lemma least_below acc v :
  number_or_null acc = true -> number_or_null v = true ->
  (forall a, to_double acc = Some a ->
     exists a', to_double (least acc v) = Some a' /\ a' <= a) /\
  (forall x, to_double v = Some x ->
     exists a', to_double (least acc v) = Some a' /\ a' <= x).
Proof.
  intros Ha Hv.
  destruct (to_double acc) as [a|] eqn:Ea; destruct (to_double v) as [x|] eqn:Ex.
  - assert (least acc v = if Rleb a x then acc else v) as ->.
    { unfold least. rewrite (sql_le_exact acc v a x Ha Hv Ea Ex).
      destruct acc, v; try discriminate; reflexivity. }
    destruct (Rleb a x) eqn:E.
    + apply Rleb_le in E. split; intros ? [= <-]; exists a; split; auto; lra.
    + assert (~ a <= x) as Hn by (rewrite <- Rleb_le; congruence).
      split; intros ? [= <-]; exists x; split; auto; lra.
  - assert (least acc v = acc) as -> by (destruct acc, v; try discriminate; reflexivity).
    split; [|discriminate]. intros ? [= <-]. exists a. split; [assumption | lra].
  - assert (least acc v = v) as -> by (destruct acc, v; try discriminate; reflexivity).
    split; [discriminate|]. intros ? [= <-]. exists x. split; [assumption | lra].
  - split; discriminate.
Qed.

Lemma greatest_above acc v :
  number_or_null acc = true -> number_or_null v = true ->
  (forall a, to_double acc = Some a ->
     exists a', to_double (greatest acc v) = Some a' /\ a' >= a) /\
  (forall x, to_double v = Some x ->
     exists a', to_double (greatest acc v) = Some a' /\ a' >= x).
Proof.
  intros Ha Hv.
  destruct (to_double acc) as [a|] eqn:Ea; destruct (to_double v) as [x|] eqn:Ex.
  - assert (greatest acc v = if Rleb x a then acc else v) as ->.
    { unfold greatest, sql_ge. rewrite (sql_le_exact v acc x a Hv Ha Ex Ea).
      destruct acc, v; try discriminate; reflexivity. }
    destruct (Rleb x a) eqn:E.
    + apply Rleb_le in E. split; intros ? [= <-]; exists a; split; auto; lra.
    + assert (~ x <= a) as Hn by (rewrite <- Rleb_le; congruence).
      split; intros ? [= <-]; exists x; split; auto; lra.
  - assert (greatest acc v = acc) as -> by (destruct acc, v; try discriminate; reflexivity).
    split; [|discriminate]. intros ? [= <-]. exists a. split; [assumption | lra].
  - assert (greatest acc v = v) as -> by (destruct acc, v; try discriminate; reflexivity).
    split; [discriminate|]. intros ? [= <-]. exists x. split; [assumption | lra].
  - split; discriminate.
Qed.

(** A fold of a step that stays on one side of its arguments stays on that
    side of every double it has seen. *)
Lemma fold_bound (f : value R -> value R -> value R) (rel : R -> R -> Prop) :
  (forall x, rel x x) -> (forall x y z, rel x y -> rel y z -> rel x z) ->
  (forall acc v, number_or_null acc = true -> number_or_null v = true ->
     number_or_null (f acc v) = true) ->
  (forall acc v, number_or_null acc = true -> number_or_null v = true ->
     (forall a, to_double acc = Some a ->
        exists a', to_double (f acc v) = Some a' /\ rel a' a) /\
     (forall x, to_double v = Some x ->
        exists a', to_double (f acc v) = Some a' /\ rel a' x)) ->
  forall vs acc,
    Forall (fun v => number_or_null v = true) vs -> number_or_null acc = true ->
    (forall a, to_double acc = Some a ->
       exists b, to_double (fold_left f vs acc) = Some b /\ rel b a) /\
    (forall x, In x (doubles vs) ->
       exists b, to_double (fold_left f vs acc) = Some b /\ rel b x).
Proof.
  intros Hrefl Htrans Hnum Hstep. induction vs as [|v vs IH]; intros acc Hvs Hacc.
  - split; [|intros x []]. intros a Ha. exists a. auto.
  - inversion Hvs as [|? ? Hv Hvs']; subst. cbn [fold_left].
    destruct (IH (f acc v) Hvs' (Hnum _ _ Hacc Hv)) as [IHa IHx].
    destruct (Hstep acc v Hacc Hv) as [Sa Sx]. split.
    + intros a Ha. destruct (Sa a Ha) as [a' [Ea' Ra]].
      destruct (IHa a' Ea') as [b [Eb Rb]]. exists b. eauto.
    + intros x Hx. unfold doubles in Hx. cbn [omap list_omap] in Hx.
      fold (doubles vs) in Hx. destruct (to_double v) as [y|] eqn:Ey.
      * destruct Hx as [<-|Hx]; [|now apply IHx].
        destruct (Sx y eq_refl) as [a' [Ea' Ra]].
        destruct (IHa a' Ea') as [b [Eb Rb]]. exists b. eauto.
      * now apply IHx.
Qed.

Lemma F_min_below vs x :
  Forall (fun v => number_or_null v = true) vs -> In x (doubles vs) ->
  exists lo, to_double (F_min vs) = Some lo /\ lo <= x.
Proof.
  intros Hvs Hx.
  apply (fold_bound least Rle Rle_refl Rle_trans least_number least_below vs VNull Hvs eq_refl).
  exact Hx.
Qed.

Lemma F_max_above vs x :
  Forall (fun v => number_or_null v = true) vs -> In x (doubles vs) ->
  exists hi, to_double (F_max vs) = Some hi /\ x <= hi.
Proof.
  intros Hvs Hx.
  destruct (fold_bound greatest Rge Rge_refl Rge_trans greatest_number greatest_above
              vs VNull Hvs eq_refl) as [_ H].
  destruct (H x Hx) as [hi [E R]]. exists hi. split; [exact E | now apply Rge_le].
Qed.

Lemma Rsum_bounds lo hi xs :
  (forall x, In x xs -> lo <= x <= hi) ->
  INR (length xs) * lo <= Rsum xs <= INR (length xs) * hi.
Proof.
  unfold Rsum. induction xs as [|x xs IH]; intros H.
  - simpl. lra.
  - cbn [fold_right length]. rewrite S_INR.
    assert (lo <= x <= hi) by (apply H; now left).
    assert (forall y, In y xs -> lo <= y <= hi) as H' by (intros y Hy; apply H; now right).
    specialize (IH H'). lra.
Qed.

Lemma mean_bounds lo hi xs :
  xs <> [] -> (forall x, In x xs -> lo <= x <= hi) -> lo <= mean xs <= hi.
Proof.
  intros Hne H. pose proof (Rsum_bounds lo hi xs H) as [Hlo Hhi].
  assert (0 < INR (length xs)) as Hn.
  { apply lt_0_INR. destruct xs; [easy | simpl; lia]. }
  assert (0 < / INR (length xs)) as Hinv by now apply Rinv_0_lt_compat.
  unfold mean, Rdiv. split.
  - replace lo with (INR (length xs) * lo * / INR (length xs)) by (field; lra).
    apply Rmult_le_compat_r; lra.
  - replace hi with (INR (length xs) * hi * / INR (length xs)) by (field; lra).
    apply Rmult_le_compat_r; lra.
Qed.

Lemma F_avg_exact vs : doubles vs <> [] -> F_avg vs = Some (mean (doubles vs)).
Proof.
  intros Hne. unfold F_avg. destruct (doubles vs) as [|x xs] eqn:E; [easy|].
  rewrite dsum_exact. cbn [ddiv of_Z exact]. now rewrite of_nat_exact.
Qed.

Lemma In_doubles vs v x : In v vs -> to_double v = Some x -> In x (doubles vs).
Proof.
  intros Hin E. unfold doubles. apply list_elem_of_In, list_elem_of_omap.
  exists v. split; [now apply list_elem_of_In | exact E].
Qed.

End ExactFacts.

Section ExactClaims.
Local Open Scope R_scope.

Lemma two_amounts_variances :
  sample_variance [10; 20] = 50 /\ population_variance [10; 20] = 25.
Proof.
  unfold sample_variance, population_variance, sum_sq_dev, mean, Rsum. simpl.
  split; field.
Qed.

(** C6: the deviation reported for a partition is null when fewer than two
    of its attribute cells hold a number (in any arithmetic), and otherwise,
    in exact arithmetic, the square root of the sample variance: the squared
    deviations from the mean divided by [n - 1]. It is not the population
    deviation, which divides by [n]: the amounts 10 and 20 tell them apart. *)
Theorem stddev_is_sample_stddev :
  (forall (num : Type) (D : Double num) (c : string)
          (rs : list (gmap string (value num))),
     (length (doubles (map (fun r => cell r c) rs)) < 2)%nat ->
     stat_stddev (agg c rs) = None) /\
  (forall (c : string) (rs : list (gmap string (value R))),
     (2 <= length (doubles (map (fun r => cell r c) rs)))%nat ->
     stat_stddev (agg c rs)
     = Some (R_sqrt.sqrt (sample_variance (doubles (map (fun r => cell r c) rs))))) /\
  stat_stddev (agg "amt" Scenario.two_amounts)
  <> Some (R_sqrt.sqrt
             (population_variance
                (doubles (map (fun r => cell r "amt") Scenario.two_amounts)))).
Proof.
  split; [|split].
  - intros num D c rs H. now apply F_stddev_null_iff.
  - intros c rs H. now apply stddev_samp_exact.
  - change (doubles (map (fun r => cell r "amt") Scenario.two_amounts)) with [10; 20].
    change (stat_stddev (agg "amt" Scenario.two_amounts)) with (stddev_samp [10; 20]).
    rewrite stddev_samp_exact by (simpl; lia).
    destruct two_amounts_variances as [-> ->]. intros [= H].
    apply sqrt_inj in H; lra.
Qed.

Lemma stddev_is_sample_stddev_witness :
  stat_stddev (agg "amt" [Scenario.trip (VLong 5) "B" "2016-01-03 17:45:00"]) = None /\
  stat_stddev (agg "trip_distance" Scenario.tenths_exact)
  = Some (R_sqrt.sqrt (sample_variance [1 / 10; 1 / 10; 1 / 10])).
Proof.
  split.
  - apply (proj1 stddev_is_sample_stddev float binary64 "amt"
             [Scenario.trip (VLong 5) "B" "2016-01-03 17:45:00"]).
    vm_compute. lia.
  - apply (proj1 (proj2 stddev_is_sample_stddev) "trip_distance" Scenario.tenths_exact).
    vm_compute. lia.
Defined.

(** The square root of a double is NaN or at least zero. *)
Lemma sqrt_nan_or_nonneg (y : float) :
  PrimFloat.is_nan (PrimFloat.sqrt y) = true \/
  PrimFloat.leb PrimFloat.zero (PrimFloat.sqrt y) = true.
Proof.
  unfold PrimFloat.is_nan.
  rewrite FloatAxioms.eqb_spec, FloatAxioms.leb_spec, FloatAxioms.sqrt_spec.
  change (Prim2SF PrimFloat.zero) with (S754_zero false).
  unfold SF64sqrt, SFsqrt.
  destruct (Prim2SF y) as [s|[|]| |[|] m e]; try (now left); try (now right).
  destruct (SFsqrt_core_binary prec emax (Z.pos m) e) as [[mz ez] lz].
  unfold binary_round_aux.
  destruct (shr_fexp prec emax mz ez lz) as [mrs' e'].
  destruct (shr_fexp prec emax _ e' loc_Exact) as [mrs'' e''].
  destruct (shr_m mrs'') as [|q|q]; [now right | | now left].
  destruct (e'' <=? emax - prec)%Z; now right.
Qed.

(** C8 (as the code has it): in exact arithmetic, over numeric cells of
    which at least one is not null, min <= mean <= max, and a deviation, when
    there is one, is the non-negative root of the sample variance. In
    binary64 neither bound on the mean holds in general; what does hold,
    whatever the cells, is that a deviation is never negative: it is NaN or
    at least zero. *)
Theorem mean_and_stddev_in_range :
  (forall (c : string) (rs : list (gmap string (value R))),
     Forall (fun r => number_or_null (cell r c) = true) rs ->
     Exists (fun r => cell r c <> VNull) rs ->
     exists lo hi m,
       to_double (stat_min (agg c rs)) = Some lo /\
       to_double (stat_max (agg c rs)) = Some hi /\
       stat_avg (agg c rs) = Some m /\
       lo <= m <= hi /\
       forall s, stat_stddev (agg c rs) = Some s ->
         0 <= s /\ s * s = sample_variance (doubles (map (fun r => cell r c) rs))) /\
  (forall (c : string) (rs : list (gmap string (value float))) (s : float),
     stat_stddev (agg c rs) = Some s ->
     PrimFloat.is_nan s = true \/ PrimFloat.leb PrimFloat.zero s = true).
Proof.
  split.
  - intros c rs Hnum Hex. unfold agg. cbn [stat_min stat_max stat_avg stat_stddev].
    set (vs := map (fun r => cell r c) rs).
    assert (Forall (fun v => number_or_null v = true) vs) as Hvs.
    { subst vs. rewrite List.Forall_map. exact Hnum. }
    assert (exists x, In x (doubles vs)) as [x Hx].
    { apply List.Exists_exists in Hex as [r [Hr Hnn]].
      rewrite List.Forall_forall in Hnum.
      destruct (to_double_number _ (Hnum r Hr) Hnn) as [x Ex]. exists x.
      apply (In_doubles vs (cell r c)); [|exact Ex]. subst vs.
      now apply (in_map (fun r => cell r c)). }
    destruct (F_min_below vs x Hvs Hx) as [lo [Elo _]].
    destruct (F_max_above vs x Hvs Hx) as [hi [Ehi _]].
    assert (doubles vs <> []) as Hne by (intros E; rewrite E in Hx; destruct Hx).
    exists lo, hi, (mean (doubles vs)).
    split; [exact Elo|]. split; [exact Ehi|]. split; [now apply F_avg_exact|]. split.
    + apply mean_bounds; [exact Hne|]. intros y Hy. split.
      * destruct (F_min_below vs y Hvs Hy) as [lo' [E' Hle]]. congruence.
      * destruct (F_max_above vs y Hvs Hy) as [hi' [E' Hle]]. congruence.
    + intros s Hs. unfold F_stddev in Hs.
      destruct (Nat.lt_ge_cases (length (doubles vs)) 2) as [Hlt|Hge].
      * apply stddev_samp_null_iff in Hlt. congruence.
      * rewrite (stddev_samp_exact _ Hge) in Hs. injection Hs as <-.
        split; [apply sqrt_pos|]. apply sqrt_sqrt. now apply sample_variance_nonneg.
  - intros c rs s. unfold agg. cbn [stat_stddev]. unfold F_stddev, stddev_samp.
    destruct (m_n _) as [|[|n]]; try discriminate. intros [= <-].
    apply sqrt_nan_or_nonneg.
Qed.

Lemma mean_and_stddev_in_range_witness :
  exists lo hi m,
    to_double (stat_min (agg "trip_distance" Scenario.tenths_exact)) = Some lo /\
    to_double (stat_max (agg "trip_distance" Scenario.tenths_exact)) = Some hi /\
    stat_avg (agg "trip_distance" Scenario.tenths_exact) = Some m /\
    lo <= m <= hi /\
    forall s, stat_stddev (agg "trip_distance" Scenario.tenths_exact) = Some s ->
      0 <= s /\
      s * s = sample_variance
                (doubles (map (fun r => cell r "trip_distance") Scenario.tenths_exact)).
Proof.
  apply (proj1 mean_and_stddev_in_range).
  - repeat constructor.
  - apply Exists_cons_hd. discriminate.
Defined.

End ExactClaims.

(** C8 in binary64. Three trips of 0.1 have the mean 0.10000000000000002,
    above their max 0.1: the sum 0.30000000000000004 is rounded, and so is
    its third. Two trips of 2^1023 and its opposite have the deviation NaN:
    their difference overflows. *)
Lemma binary64_statistics_out_of_range :
  (main (Scenario.query Filter "trip_distance" None None None None None None)
        Scenario.world_of_tenths
   = (Ok tt,
      {| console :=
           [ReadingFrom Scenario.taxi; PrintSchema (schema Scenario.tenths);
            FilterMode "trip_distance" 3;
            Statistics {| stat_min := VDouble 0x1.999999999999ap-4%float;
                          stat_max := VDouble 0x1.999999999999ap-4%float;
                          stat_avg := Some 0x1.999999999999bp-4%float;
                          stat_stddev := Some 0%float |}];
         hdfs := hdfs Scenario.world_of_tenths |}) /\
   dleb 0x1.999999999999bp-4%float 0x1.999999999999ap-4%float = false) /\
  (agg "trip_distance"
     [ {[ "trip_distance" := VDouble 0x1p+1023%float ]};
       {[ "trip_distance" := VDouble (PrimFloat.opp 0x1p+1023%float) ]} ]
   = {| stat_min := VDouble (PrimFloat.opp 0x1p+1023%float);
        stat_max := VDouble 0x1p+1023%float;
        stat_avg := Some 0%float;
        stat_stddev := Some PrimFloat.nan |} /\
   PrimFloat.leb 0%float PrimFloat.nan = false).
Proof. repeat split; vm_compute; reflexivity. Qed.

(** ** Runs of the program *)

Section RunFacts.
Context {num : Type} {D : Double num}.
Implicit Types (df : DataFrame num) (args : Args num) (w : World num).

Lemma printed_printed w ps qs : printed (printed w ps) qs = printed w (ps ++ qs).
Proof. unfold printed. simpl. now rewrite app_assoc. Qed.

(** The opening of [main]: the path and the schema are printed, the frame is
    read. *)
Lemma main_opening args w df :
  hdfs w !! input args = Some df -> distinct_columns (columns df) = true ->
  main args w =
  (if negb (in_columns (attribute args) (columns df)) then
     raise (AttributeNotFound (attribute args) (columns df))
   else match mode args with
        | Filter => mode_filter df args
        | Group => mode_group df args
        end)
    (printed w [ReadingFrom (input args); PrintSchema (schema df)]).
Proof.
  intros Hdf Hd. unfold main, bind, read_parquet, print, printed. simpl.
  rewrite Hdf, Hd. cbn [console hdfs]. rewrite <- app_assoc. reflexivity.
Qed.

Lemma mode_filter_no_rows df args w df' :
  apply_filters df args = Ok df' -> length (rows df') = 0%nat ->
  mode_filter df args w
  = (Ok tt, printed w [FilterMode (attribute args) 0; NoRowsMatch]).
Proof.
  intros Hf Hn. unfold mode_filter, bind, lift, print, printed. rewrite Hf, Hn.
  simpl. now rewrite <- app_assoc.
Qed.

Lemma duplicate_column_None (cols : list string) :
  duplicate_column cols = None <-> distinct_columns cols = true.
Proof.
  induction cols as [|c cs IH]; simpl; [easy|].
  destruct (existsb (same_column c) cs); simpl; [easy | exact IH].
Qed.

(** A write of a frame with distinct columns fails only on the path it
    scans. *)
Lemma write_parquet_distinct scanned path df w :
  distinct_columns (columns df) = true ->
  write_parquet scanned path df w
  = if String.eqb path scanned then
      (Raise (WriteFailed path), {| console := console w; hdfs := delete path (hdfs w) |})
    else (Ok tt, {| console := console w; hdfs := <[path := df]> (hdfs w) |}).
Proof.
  intros Hd. apply duplicate_column_None in Hd. unfold write_parquet. now rewrite Hd.
Qed.

Lemma write_parquet_other scanned path df w other :
  other <> path -> hdfs (snd (write_parquet scanned path df w)) !! other = hdfs w !! other.
Proof.
  intros Hne. unfold write_parquet.
  destruct (duplicate_column (columns df)); [reflexivity|].
  destruct (String.eqb path scanned); cbn [snd hdfs].
  - now apply lookup_delete_ne.
  - now apply lookup_insert_ne.
Qed.

Lemma write_parquet_console scanned path df w :
  console (snd (write_parquet scanned path df w)) = console w.
Proof.
  unfold write_parquet. destruct (duplicate_column (columns df)); [reflexivity|].
  now destruct (String.eqb path scanned).
Qed.

(** A write ends normally exactly when no column name comes twice and the
    path is not the one scanned; then the frame is what the path holds. *)
Lemma write_parquet_Ok scanned path df w :
  fst (write_parquet scanned path df w) = Ok tt <->
  distinct_columns (columns df) = true /\ path <> scanned.
Proof.
  unfold write_parquet. rewrite <- duplicate_column_None.
  destruct (duplicate_column (columns df)); [now split; [|intros [? _]]|].
  destruct (String.eqb path scanned) eqn:E; cbn [fst].
  - apply String.eqb_eq in E. split; [discriminate | now intros [_ ?]].
  - apply String.eqb_neq in E. now split.
Qed.

Lemma write_parquet_Raise scanned path df w e :
  fst (write_parquet scanned path df w) = Raise e ->
  e = WriteFailed path \/ exists c, e = ColumnAlreadyExists c.
Proof.
  unfold write_parquet. destruct (duplicate_column (columns df)) as [c|].
  - intros [= <-]. right. eauto.
  - destruct (String.eqb path scanned); cbn [fst]; [|discriminate].
    intros [= <-]. now left.
Qed.

(** The columns of a grouped frame: the key as it was spelled, then the
    five aggregates. *)
Lemma grouped_frame_columns df (g k a : string) gs :
  columns (grouped_frame df g k a gs) = g :: aliases.
Proof. reflexivity. Qed.

Lemma grouped_frame_distinct df (g k a : string) gs :
  distinct_columns (columns (grouped_frame df g k a gs))
  = negb (existsb (same_column g) aliases).
Proof.
  rewrite grouped_frame_columns. cbn [distinct_columns].
  change (distinct_columns aliases) with true. apply andb_true_r.
Qed.

(** Group mode on a frame in which group_by and the attribute resolve: the
    headline, the first 50 groups, and the write of all of them if there is
    an output path. *)
Lemma mode_group_run df args w df' g k c :
  truthy (group_by args) = Some g ->
  apply_filters df args = Ok df' ->
  resolve (columns df') g = Some k ->
  resolve (columns df') (attribute args) = Some c ->
  mode_group df args w
  = match truthy (output args) with
    | Some path =>
        write_parquet (input args) path
          (grouped_frame df' g k c (grouped_rows k c (rows df')))
          (printed w [GroupMode g (attribute args);
                      GroupedStatistics (firstn 50 (grouped_rows k c (rows df')));
                      WritingGrouped path])
    | None =>
        (Ok tt, printed w [GroupMode g (attribute args);
                           GroupedStatistics (firstn 50 (grouped_rows k c (rows df')))])
    end.
Proof.
  intros Hg Hf Hk Hc. unfold mode_group, bind, lift, grouped_by, print.
  rewrite Hg, Hf. cbn beta iota. rewrite Hk, Hc. cbn beta iota.
  unfold ret, printed. destruct (truthy (output args)) as [path|]; cbn [console hdfs].
  - now rewrite <- !app_assoc.
  - now rewrite <- !app_assoc.
Qed.


(** C10: in filter mode, when no row passes the filters, the run ends after
    the count and the notice: no statistics are computed and, with or
    without an output path, the store stays as it was. *)
Theorem filter_mode_no_rows_no_write df args w df' :
  apply_filters df args = Ok df' -> length (rows df') = 0%nat ->
  exists w', mode_filter df args w = (Ok tt, w') /\
    console w' = console w ++ [FilterMode (attribute args) 0; NoRowsMatch] /\
    hdfs w' = hdfs w.
Proof.
  intros Hf Hn. rewrite (mode_filter_no_rows _ _ _ _ Hf Hn).
  eexists. split; [reflexivity|]. split; reflexivity.
Qed.


(** C1 (as the code has it): a run whose attribute is not among the columns,
    or whose group mode has no group_by or one that names no column, fails
    before anything is computed from the rows: nothing but the input path,
    the schema and the mode's headline is printed, and the store is as it
    was. The first two failures are the program's own ValueError, the third
    is the engine's. *)
Theorem main_rejects_unknown_columns args w df :
  hdfs w !! input args = Some df -> distinct_columns (columns df) = true ->
  in_columns (attribute args) (columns df) = false \/
  (mode args = Group /\
   match truthy (group_by args) with
   | Some g => resolve (columns df) g = None
   | None => True
   end) ->
  exists e w', main args w = (Raise e, w') /\
    hdfs w' = hdfs w /\
    List.filter reports_data (console w') = List.filter reports_data (console w) /\
    e = (if in_columns (attribute args) (columns df) then
           match truthy (group_by args) with
           | Some g => UnresolvedColumn g
           | None => GroupByRequired
           end
         else AttributeNotFound (attribute args) (columns df)).
Proof.
  intros Hdf Hd Hbad. rewrite (main_opening _ _ _ Hdf Hd).
  destruct (in_columns (attribute args) (columns df)) eqn:Ha; simpl negb; cbn iota.
  - destruct Hbad as [Hbad|[Hm Hg]]; [discriminate|]. rewrite Hm.
    unfold mode_group. destruct (truthy (group_by args)) as [g|].
    + destruct (apply_filters_total df args Ha) as [df' Hf].
      destruct (apply_filters_ok _ _ _ Hf) as [Hs _].
      unfold bind, lift, print, grouped_by, printed. rewrite Hf. cbn beta iota.
      rewrite (columns_of_schema _ _ Hs), Hg.
      eexists _, _. split; [reflexivity|]. cbn [console hdfs].
      split; [reflexivity|]. split; [|reflexivity].
      rewrite !List.filter_app. simpl. now rewrite !app_nil_r.
    + unfold raise, printed. eexists _, _. split; [reflexivity|]. cbn [console hdfs].
      split; [reflexivity|]. split; [|reflexivity].
      rewrite List.filter_app. simpl. now rewrite app_nil_r.
  - unfold raise, printed. eexists _, _. split; [reflexivity|]. cbn [console hdfs].
    split; [reflexivity|]. split; [|reflexivity].
    rewrite List.filter_app. simpl. now rewrite app_nil_r.
Qed.

End RunFacts.

(** ** The runs of the scenarios *)

(** Scenarios 1 and 2 of the specification, as the job prints them. *)
Example scenario_1 :
  main (Scenario.query Filter "amt" None None None None None None) Scenario.world
  = (Ok tt,
     {| console :=
          [ReadingFrom Scenario.taxi; PrintSchema Scenario.trip_schema;
           FilterMode "amt" 3;
           Statistics {| stat_min := VLong 5; stat_max := VLong 20;
                         stat_avg := Some 0x1.7555555555555p+3%float;
                         stat_stddev := Some 0x1.e8ceddf2332dep+2%float |}];
        hdfs := hdfs Scenario.world |}).
Proof. vm_compute. reflexivity. Qed.

Example scenario_2 :
  main (Scenario.query Filter "amt" (Some 8%float) None None None None None)
       Scenario.world
  = (Ok tt,
     {| console :=
          [ReadingFrom Scenario.taxi; PrintSchema Scenario.trip_schema;
           FilterMode "amt" 2;
           Statistics {| stat_min := VLong 10; stat_max := VLong 20;
                         stat_avg := Some 15%float;
                         stat_stddev := Some 0x1.c48c6001f0ac0p+2%float |}];
        hdfs := hdfs Scenario.world |}).
Proof. vm_compute. reflexivity. Qed.

(** With an output path and rows that match, filter mode stores the
    filtered rows there. *)
Example filtered_rows_are_written :
  hdfs (snd (main (Scenario.query Filter "amt" (Some 8%float) None None None None
                     (Some "hdfs:///out"))
                  Scenario.world)) !! "hdfs:///out"
  = Some {| schema := Scenario.trip_schema;
            rows := [Scenario.trip (VLong 10) "A" "2016-01-01 08:00:00";
                     Scenario.trip (VLong 20) "A" "2016-01-02 09:30:00"] |}.
Proof. vm_compute. reflexivity. Qed.

Lemma filter_mode_no_rows_no_write_witness :
  exists w',
    mode_filter Scenario.trips
      (Scenario.query Filter "amt" (Some 100%float) None None None None
         (Some "hdfs:///out"))
      Scenario.world = (Ok tt, w') /\
    console w' = [FilterMode "amt" 0; NoRowsMatch] /\
    hdfs w' = hdfs Scenario.world.
Proof.
  apply (filter_mode_no_rows_no_write Scenario.trips
           (Scenario.query Filter "amt" (Some 100%float) None None None None
              (Some "hdfs:///out"))
           Scenario.world {| schema := Scenario.trip_schema; rows := [] |}).
  - vm_compute. reflexivity.
  - reflexivity.
Defined.



(** Scenario 4 of the specification: a min_value above every amount, in
    the two modes. *)
Example scenario_4 :
  main (Scenario.query Filter "amt" (Some 100%float) None None None None None)
       Scenario.world
  = (Ok tt,
     {| console := [ReadingFrom Scenario.taxi; PrintSchema Scenario.trip_schema;
                    FilterMode "amt" 0; NoRowsMatch];
        hdfs := hdfs Scenario.world |}) /\
  main (Scenario.query Group "amt" (Some 100%float) None None None (Some "zone") None)
       Scenario.world
  = (Ok tt,
     {| console := [ReadingFrom Scenario.taxi; PrintSchema Scenario.trip_schema;
                    GroupMode "zone" "amt"; GroupedStatistics []];
        hdfs := hdfs Scenario.world |}).
Proof. split; vm_compute; reflexivity. Qed.

Lemma main_rejects_unknown_columns_witness :
  exists e w',
    main (Scenario.query Group "amt" None None None None (Some "borough") None)
         Scenario.world = (Raise e, w') /\
    hdfs w' = hdfs Scenario.world /\
    List.filter reports_data (console w') = [] /\
    e = UnresolvedColumn "borough".
Proof.
  apply (main_rejects_unknown_columns
           (Scenario.query Group "amt" None None None None (Some "borough") None)
           Scenario.world Scenario.trips).
  - vm_compute. reflexivity.
  - reflexivity.
  - right. split; reflexivity.
Defined.

(** C1: the zone is a string column, and a query that takes it as its
    attribute is not rejected: the run goes through the filters and ends
    normally (here no trip is in the 2017 window). *)
Lemma string_attribute_is_not_rejected :
  dtype_of Scenario.trips "zone" = StringType /\
  is_numeric StringType = false /\
  main (Scenario.query Filter "zone" None None (Some "2017-01-01 00:00:00") None
          None None)
       Scenario.world
  = (Ok tt,
     {| console := [ReadingFrom Scenario.taxi; PrintSchema Scenario.trip_schema;
                    FilterMode "zone" 0; NoRowsMatch];
        hdfs := hdfs Scenario.world |}).
Proof. repeat split; vm_compute; reflexivity. Qed.

(** Scenario 5 of the specification: an attribute that is no column. *)
Example scenario_5 :
  main (Scenario.query Filter "fare" None None None None None None) Scenario.world
  = (Raise (AttributeNotFound "fare" ["amt"; "zone"; "tpep_pickup_datetime"]),
     {| console := [ReadingFrom Scenario.taxi; PrintSchema Scenario.trip_schema];
        hdfs := hdfs Scenario.world |}).
Proof. vm_compute. reflexivity. Qed.

(** ** The filters as one condition *)

Section PredicateFacts.
Context {num : Type} {D : Double num}.
Implicit Types (df : DataFrame num) (args : Args num).

Lemma filter_true {A} (l : list A) : List.filter (fun _ => true) l = l.
Proof. induction l as [|x l IH]; simpl; [reflexivity | now rewrite IH]. Qed.

Lemma filter_filter {A} (p q : A -> bool) (l : list A) :
  List.filter q (List.filter p l) = List.filter (fun x => p x && q x) l.
Proof.
  induction l as [|x l IH]; simpl; [reflexivity|].
  destruct (p x); simpl; [destruct (q x)|]; now rewrite IH.
Qed.

Lemma where_where c1 c2 df :
  where_ c2 (where_ c1 df)
  = {| schema := schema df;
       rows := List.filter (fun r => holds (c1 r) && holds (c2 r)) (rows df) |}.
Proof. unfold where_. simpl. now rewrite filter_filter. Qed.

Lemma frame_eta df : {| schema := schema df; rows := rows df |} = df.
Proof. now destruct df. Qed.

Lemma time_window_filter df args :
  time_window df args
  = Ok {| schema := schema df;
          rows := List.filter (time_passes (columns df) args) (rows df) |}.
Proof.
  unfold time_window, time_passes.
  destruct (in_columns _ (columns df)) eqn:Hin.
  2: { now rewrite filter_true, frame_eta. }
  destruct (resolve_in_columns _ _ Hin) as [t [Ht _]]. rewrite Ht.
  unfold filter_ge, filter_le.
  destruct (truthy (start args)) as [s|], (truthy (end_ args)) as [e|];
    rewrite ?Ht; cbn [and_then]; rewrite ?where_columns, ?Ht; unfold where_, holds;
    cbn [schema rows]; f_equal; f_equal.
  - now rewrite filter_filter.
  - apply List.filter_ext. intros r. now rewrite andb_true_r.
  - now rewrite filter_true, frame_eta.
Qed.

Lemma bounds_filter df args df' :
  bounds df args = Ok df' ->
  df' = {| schema := schema df;
           rows := List.filter (bounds_pass (columns df) args) (rows df) |}.
Proof.
  unfold bounds, bounds_pass, filter_ge, filter_le, and_then.
  destruct (resolve (columns df) (attribute args)) as [a|] eqn:Ha.
  - destruct (min_value args) as [lo|], (max_value args) as [hi|];
      rewrite ?where_columns, ?Ha; intros [= <-]; unfold where_, holds;
      cbn [schema rows]; f_equal.
    + now rewrite filter_filter.
    + apply List.filter_ext. intros r. now rewrite andb_true_r.
    + now rewrite filter_true, frame_eta.
  - destruct (min_value args) as [lo|]; [discriminate|].
    destruct (max_value args) as [hi|]; [now rewrite Ha|].
    intros [= <-]. now rewrite filter_true, frame_eta.
Qed.

Lemma apply_filters_filter df args df' :
  apply_filters df args = Ok df' ->
  df' = {| schema := schema df;
           rows := List.filter (row_passes (columns df) args) (rows df) |}.
Proof.
  rewrite apply_filters_stages, time_window_filter. simpl. intros Hb.
  apply bounds_filter in Hb. rewrite Hb. simpl. unfold row_passes.
  now rewrite filter_filter.
Qed.


Lemma bounds_transfer df d args df' :
  bounds df args = Ok df' -> columns d = columns df ->
  bounds d args
  = Ok {| schema := schema d;
          rows := List.filter (bounds_pass (columns d) args) (rows d) |}.
Proof.
  intros Hb Hc.
  destruct (bounds_result d args) as [[d' E]|E].
  - rewrite E. f_equal. now apply bounds_filter.
  - exfalso. revert Hb E. unfold bounds, and_then, filter_ge, filter_le. rewrite Hc.
    destruct (resolve (columns df) (attribute args)) as [a|] eqn:Ha.
    + destruct (min_value args), (max_value args);
        rewrite ?where_columns, ?Hc, ?Ha; discriminate.
    + destruct (min_value args); [discriminate|].
      destruct (max_value args); [rewrite Ha; discriminate | discriminate].
Qed.

Lemma filter_sublist {A} (p : A -> bool) (l : list A) : sublist (List.filter p l) l.
Proof.
  induction l as [|x l IH]; simpl; [constructor|].
  destruct (p x); now constructor.
Qed.

Lemma filter_twice {A} (p : A -> bool) (l : list A) :
  List.filter p (List.filter p l) = List.filter p l.
Proof.
  rewrite filter_filter. apply List.filter_ext. intros x. now destruct (p x).
Qed.

(** X1: the filters of [apply_filters], applied one after the other, are one
    filter by the conjunction of their conditions: the result has the schema
    of the frame and, in their order, the rows that pass every condition. *)
Theorem apply_filters_is_one_filter df args df' :
  apply_filters df args = Ok df' ->
  df' = {| schema := schema df;
           rows := List.filter (row_passes (columns df) args) (rows df) |}.
Proof. apply apply_filters_filter. Qed.

(** X2: the filtered rows are rows of the frame in their original order,
    none repeated or added, so there are at most as many. *)
Theorem apply_filters_keeps_order df args df' :
  apply_filters df args = Ok df' ->
  sublist (rows df') (rows df) /\ (length (rows df') <= length (rows df))%nat.
Proof.
  intros H. apply apply_filters_filter in H. subst df'. cbn [rows].
  split; [apply filter_sublist|]. apply sublist_length, filter_sublist.
Qed.

(** X3: filtering a filtered frame again with the same arguments changes
    nothing. *)
Theorem apply_filters_idempotent df args df' :
  apply_filters df args = Ok df' -> apply_filters df' args = Ok df'.
Proof.
  intros H. pose proof (apply_filters_filter _ _ _ H) as E.
  assert (schema df' = schema df) as Hs by now rewrite E.
  pose proof (columns_of_schema _ _ Hs) as Hc.
  assert (exists d, apply_filters df' args = Ok d) as [d Hd].
  { revert H. rewrite !apply_filters_stages, !time_window_filter. cbn [and_then].
    intros Hb. erewrite (bounds_transfer _ _ _ _ Hb); [eauto|].
    unfold columns. cbn [schema]. now rewrite Hs. }
  rewrite Hd. f_equal. apply apply_filters_filter in Hd. rewrite Hd, Hs, Hc.
  rewrite E at 1 2. cbn [rows]. now rewrite filter_twice.
Qed.

End PredicateFacts.

(** ** What a run touches *)

Section FrameFacts.
Context {num : Type} {D : Double num}.
Implicit Types (df : DataFrame num) (args : Args num) (w : World num).
Implicit Type out : option string.

Lemma grows_refl out w : grows out w w.
Proof. split; [exists []; now rewrite app_nil_r | auto]. Qed.

Lemma grows_trans out w1 w2 w3 : grows out w1 w2 -> grows out w2 w3 -> grows out w1 w3.
Proof.
  intros [[n1 H1] S1] [[n2 H2] S2]. split.
  - exists (n1 ++ n2). now rewrite H2, H1, app_assoc.
  - intros p Hp. now rewrite S2, S1.
Qed.

Lemma bind_grows {A B} out (m : Spark num A) (f : A -> Spark num B) :
  (forall w, grows out w (snd (m w))) ->
  (forall a w, grows out w (snd (f a w))) ->
  forall w, grows out w (snd (bind m f w)).
Proof.
  intros Hm Hf w. unfold bind. specialize (Hm w).
  destruct (m w) as [[a|e] w1]; simpl in *; [|exact Hm].
  eapply grows_trans; [exact Hm | apply Hf].
Qed.

Lemma print_grows out p w : grows out w (snd (print p w)).
Proof. split; simpl; [now exists [p] | auto]. Qed.

Lemma lift_grows {A} out (r : Result A) w : grows out w (snd (lift (num:=num) r w)).
Proof. apply grows_refl. Qed.

Lemma write_grows scanned path df w :
  grows (Some path) w (snd (write_parquet scanned path df w)).
Proof.
  split.
  - exists []. now rewrite write_parquet_console, app_nil_r.
  - intros p Hp. apply write_parquet_other. congruence.
Qed.

Lemma mode_filter_grows df args w :
  grows (truthy (output args)) w (snd (mode_filter df args w)).
Proof.
  revert w. unfold mode_filter. apply bind_grows; [intros; apply lift_grows|].
  intros d. apply bind_grows; [intros; apply print_grows|]. intros _.
  destruct (Nat.eqb _ 0); [intros; apply print_grows|].
  apply bind_grows; [intros; apply lift_grows|]. intros st.
  apply bind_grows; [intros; apply print_grows|]. intros _.
  destruct (truthy (output args)) as [path|].
  - apply bind_grows; [intros; apply print_grows|]. intros _ w. apply write_grows.
  - intros w. apply grows_refl.
Qed.

Lemma mode_group_grows df args w :
  grows (truthy (output args)) w (snd (mode_group df args w)).
Proof.
  revert w. unfold mode_group. destruct (truthy (group_by args)) as [g|].
  2: { intros w. apply grows_refl. }
  apply bind_grows; [intros; apply lift_grows|]. intros d.
  apply bind_grows; [intros; apply print_grows|]. intros _.
  apply bind_grows; [intros; apply lift_grows|]. intros [[k c] gs].
  apply bind_grows; [intros; apply print_grows|]. intros _.
  destruct (truthy (output args)) as [path|].
  - apply bind_grows; [intros; apply print_grows|]. intros _ w. apply write_grows.
  - intros w. apply grows_refl.
Qed.

Lemma read_grows out path w : grows out w (snd (read_parquet (num:=num) path w)).
Proof.
  unfold read_parquet. destruct (hdfs w !! path) as [df|]; [|apply grows_refl].
  destruct (distinct_columns _); apply grows_refl.
Qed.

(** X5: whatever the arguments and whether it ends normally or not, a run
    only adds lines to the console and stores nothing but at its output path:
    every other path of the store is as before, and with no output path (or
    an empty one) the whole store is. *)
Theorem main_writes_only_to_output args w :
  (exists new, console (snd (main args w)) = console w ++ new) /\
  forall path, truthy (output args) <> Some path ->
    hdfs (snd (main args w)) !! path = hdfs w !! path.
Proof.
  change (grows (truthy (output args)) w (snd (main args w))).
  revert w. unfold main. apply bind_grows; [intros; apply print_grows|]. intros _.
  apply bind_grows; [intros; apply read_grows|]. intros df.
  apply bind_grows; [intros; apply print_grows|]. intros _.
  destruct (negb _); [intros w; apply grows_refl|].
  destruct (mode args); intros w; [apply mode_filter_grows | apply mode_group_grows].
Qed.

End FrameFacts.

(** ** Runs that end normally *)

Section SuccessFacts.
Context {num : Type} {D : Double num}.
Implicit Types (df : DataFrame num) (args : Args num) (w : World num).

Lemma mode_filter_rows df args w df' c :
  apply_filters df args = Ok df' -> rows df' <> [] ->
  resolve (columns df') (attribute args) = Some c ->
  mode_filter df args w
  = match truthy (output args) with
    | Some path =>
        write_parquet (input args) path df'
          (printed w [FilterMode (attribute args) (length (rows df'));
                      Statistics (agg c (rows df')); WritingFiltered path])
    | None =>
        (Ok tt, printed w [FilterMode (attribute args) (length (rows df'));
                           Statistics (agg c (rows df'))])
    end.
Proof.
  intros Hf Hne Hc. unfold mode_filter, bind, lift, print, agg_frame. rewrite Hf.
  cbn beta iota. destruct (rows df') as [|r rs] eqn:Hr; [easy|].
  cbn [length Nat.eqb]. rewrite Hc. cbn beta iota. cbn [console hdfs].
  unfold ret, printed. destruct (truthy (output args)) as [path|]; cbn [console hdfs];
    now rewrite <- !app_assoc.
Qed.

Lemma main_unreadable args w :
  (hdfs w !! input args = None \/
   exists df, hdfs w !! input args = Some df /\ distinct_columns (columns df) = false) ->
  exists e, main args w = (Raise e, printed w [ReadingFrom (input args)]).
Proof.
  intros H. unfold main, bind, print, read_parquet, printed. cbn [console hdfs].
  destruct H as [-> | [df [-> ->]]]; eauto.
Qed.

(** Filter mode with rows that match, up to the write. *)
Lemma main_filter_rows args w df df' :
  hdfs w !! input args = Some df -> distinct_columns (columns df) = true ->
  in_columns (attribute args) (columns df) = true -> mode args = Filter ->
  apply_filters df args = Ok df' -> rows df' <> [] ->
  distinct_columns (columns df') = true /\
  main args w
  = match truthy (output args) with
    | Some path =>
        write_parquet (input args) path df'
          (printed w [ReadingFrom (input args); PrintSchema (schema df);
                      FilterMode (attribute args) (length (rows df'));
                      Statistics (agg (attribute args) (rows df'));
                      WritingFiltered path])
    | None =>
        (Ok tt, printed w [ReadingFrom (input args); PrintSchema (schema df);
                           FilterMode (attribute args) (length (rows df'));
                           Statistics (agg (attribute args) (rows df'))])
    end.
Proof.
  intros Hdf Hd Ha Hm Hf Hne. rewrite (main_opening _ _ _ Hdf Hd), Ha, Hm.
  cbn [negb]. destruct (apply_filters_ok _ _ _ Hf) as [Hs _].
  pose proof (columns_of_schema _ _ Hs) as Hc.
  assert (resolve (columns df') (attribute args) = Some (attribute args)) as Hr.
  { rewrite Hc. apply resolve_distinct; [exact Hd | now apply in_columns_In]. }
  split; [now rewrite Hc|].
  rewrite (mode_filter_rows _ _ _ _ _ Hf Hne Hr).
  destruct (truthy (output args)); now rewrite printed_printed.
Qed.

(** Group mode on a valid query, up to the write. *)
Lemma main_group_run args w df df' g k :
  hdfs w !! input args = Some df -> distinct_columns (columns df) = true ->
  in_columns (attribute args) (columns df) = true -> mode args = Group ->
  truthy (group_by args) = Some g -> resolve (columns df) g = Some k ->
  apply_filters df args = Ok df' ->
  main args w
  = match truthy (output args) with
    | Some path =>
        write_parquet (input args) path
          (grouped_frame df' g k (attribute args)
             (grouped_rows k (attribute args) (rows df')))
          (printed w [ReadingFrom (input args); PrintSchema (schema df);
                      GroupMode g (attribute args);
                      GroupedStatistics
                        (firstn 50 (grouped_rows k (attribute args) (rows df')));
                      WritingGrouped path])
    | None =>
        (Ok tt, printed w [ReadingFrom (input args); PrintSchema (schema df);
                           GroupMode g (attribute args);
                           GroupedStatistics
                             (firstn 50 (grouped_rows k (attribute args) (rows df')))])
    end.
Proof.
  intros Hdf Hd Ha Hm Hg Hk Hf. rewrite (main_opening _ _ _ Hdf Hd), Ha, Hm.
  cbn [negb]. destruct (apply_filters_ok _ _ _ Hf) as [Hs _].
  pose proof (columns_of_schema _ _ Hs) as Hc.
  assert (resolve (columns df') (attribute args) = Some (attribute args)) as Hr.
  { rewrite Hc. apply resolve_distinct; [exact Hd | now apply in_columns_In]. }
  rewrite <- Hc in Hk. rewrite (mode_group_run _ _ _ _ _ _ _ Hg Hf Hk Hr).
  destruct (truthy (output args)); now rewrite printed_printed.
Qed.

(** X7: in filter mode, when some row passes the filters, the run prints the
    number of filtered rows and the statistics of exactly these rows, then
    the line of the write if there is an output path. With an output path
    other than the input path it ends normally and the path holds exactly the
    filtered frame; with no output path the store is as it was; and when the
    output path is the input path the write fails after the statistics were
    printed, and the input is lost. *)
Theorem filter_mode_reports_filtered_rows args w df df' :
  hdfs w !! input args = Some df -> distinct_columns (columns df) = true ->
  in_columns (attribute args) (columns df) = true -> mode args = Filter ->
  apply_filters df args = Ok df' -> rows df' <> [] ->
  exists result store,
    main args w
    = (result,
       {| console := console w ++ [ReadingFrom (input args); PrintSchema (schema df);
                                   FilterMode (attribute args) (length (rows df'));
                                   Statistics (agg (attribute args) (rows df'))]
                       ++ writing WritingFiltered (truthy (output args));
          hdfs := store |}) /\
    (truthy (output args) <> Some (input args) ->
     result = Ok tt /\ store = stored (truthy (output args)) df' (hdfs w)) /\
    (truthy (output args) = Some (input args) ->
     result = Raise (WriteFailed (input args)) /\ store = delete (input args) (hdfs w)).
Proof.
  intros Hdf Hd Ha Hm Hf Hne.
  destruct (main_filter_rows _ _ _ _ Hdf Hd Ha Hm Hf Hne) as [Hd' ->].
  unfold writing, stored. destruct (truthy (output args)) as [path|].
  - rewrite (write_parquet_distinct _ _ _ _ Hd'). unfold printed. cbn [console hdfs].
    destruct (String.eqb path (input args)) eqn:E.
    + apply String.eqb_eq in E. subst path. eexists _, _.
      split; [reflexivity|]. split; [congruence | auto].
    + apply String.eqb_neq in E. eexists _, _.
      split; [reflexivity|]. split; [auto | congruence].
  - unfold printed. eexists _, _. rewrite app_nil_r.
    split; [reflexivity|]. split; [auto | discriminate].
Qed.

(** X8: in group mode a valid query prints the headline and the first 50
    groups only, then the line of the write if there is an output path. The
    frame it writes holds all the groups, under the name group_by was given
    as it was spelled, followed by count, min, max, avg, stddev. The write
    is refused, and the store left as it was, when group_by is one of these
    five names; it fails, and the input is lost, when the output path is the
    input path; otherwise the run ends normally and the path holds that
    frame. *)
Theorem group_mode_reports_groups args w df df' g k :
  hdfs w !! input args = Some df -> distinct_columns (columns df) = true ->
  in_columns (attribute args) (columns df) = true -> mode args = Group ->
  truthy (group_by args) = Some g -> resolve (columns df) g = Some k ->
  apply_filters df args = Ok df' ->
  exists result store,
    main args w
    = (result,
       {| console := console w ++ [ReadingFrom (input args); PrintSchema (schema df);
                                   GroupMode g (attribute args);
                                   GroupedStatistics
                                     (firstn 50
                                        (grouped_rows k (attribute args) (rows df')))]
                       ++ writing WritingGrouped (truthy (output args));
          hdfs := store |}) /\
    match truthy (output args) with
    | None => result = Ok tt /\ store = hdfs w
    | Some path =>
        if existsb (same_column g) aliases then
          result = Raise (ColumnAlreadyExists (lower g)) /\ store = hdfs w
        else if String.eqb path (input args) then
          result = Raise (WriteFailed path) /\ store = delete path (hdfs w)
        else
          result = Ok tt /\
          store = <[path := {| schema := [(g, dtype_of df' k); ("count", LongType);
                                          ("min", dtype_of df' (attribute args));
                                          ("max", dtype_of df' (attribute args));
                                          ("avg", DoubleType); ("stddev", DoubleType)];
                               rows := map (group_cells g)
                                         (grouped_rows k (attribute args) (rows df')) |}]>
                    (hdfs w)
    end.
Proof.
  intros Hdf Hd Ha Hm Hg Hk Hf.
  rewrite (main_group_run _ _ _ _ _ _ Hdf Hd Ha Hm Hg Hk Hf).
  unfold writing. destruct (truthy (output args)) as [path|].
  - unfold write_parquet. rewrite grouped_frame_columns. cbn [duplicate_column].
    destruct (existsb (same_column g) aliases).
    + unfold printed. cbn [console hdfs]. eexists _, _.
      split; [reflexivity | auto].
    + change (duplicate_column aliases) with (@None string).
      unfold printed. cbn [console hdfs].
      destruct (String.eqb path (input args)); eexists _, _;
        (split; [reflexivity | auto]).
  - unfold printed. eexists _, _. rewrite app_nil_r. split; [reflexivity | auto].
Qed.

(** X6: a run ends normally exactly when the input path holds a frame with
    distinct column names, the query is valid on it (the attribute is a
    column and, in group mode, group_by is given and names a column), and
    no write fails: in filter mode the output path is not the input path,
    unless no row passes the filters and nothing is written; in group mode,
    with an output path, that path is not the input path and group_by is
    none of count, min, max, avg, stddev. *)
Theorem main_succeeds_iff_valid args w :
  fst (main args w) = Ok tt <->
  exists df, hdfs w !! input args = Some df /\
             distinct_columns (columns df) = true /\ valid_query args df /\
             match mode args with
             | Filter =>
                 truthy (output args) = Some (input args) ->
                 forall df', apply_filters df args = Ok df' -> rows df' = []
             | Group =>
                 forall path g,
                   truthy (output args) = Some path -> truthy (group_by args) = Some g ->
                   path <> input args /\ existsb (same_column g) aliases = false
             end.
Proof.
  split.
  - intros Hok. destruct (hdfs w !! input args) as [df|] eqn:Hdf.
    2: { destruct (main_unreadable args w) as [e He]; [now left|].
         rewrite He in Hok. discriminate. }
    destruct (distinct_columns (columns df)) eqn:Hd.
    2: { destruct (main_unreadable args w) as [e He]; [right; eauto|].
         rewrite He in Hok. discriminate. }
    exists df. split; [reflexivity|]. split; [exact Hd|].
    destruct (in_columns (attribute args) (columns df)) eqn:Ha.
    2: { rewrite (main_opening _ _ _ Hdf Hd), Ha in Hok. discriminate. }
    destruct (apply_filters_total df args Ha) as [df' Hf].
    unfold valid_query. rewrite Ha. destruct (mode args) eqn:Hm.
    + split; [now split|]. intros Hout d Hd'. rewrite Hf in Hd'. injection Hd' as <-.
      destruct (rows df') as [|r rs] eqn:Hrows; [reflexivity | exfalso].
      assert (rows df' <> []) as Hne by now rewrite Hrows.
      destruct (main_filter_rows _ _ _ _ Hdf Hd Ha Hm Hf Hne) as [_ E].
      rewrite E, Hout in Hok. apply write_parquet_Ok in Hok. now destruct Hok.
    + destruct (truthy (group_by args)) as [g|] eqn:Hg.
      2: { rewrite (main_opening _ _ _ Hdf Hd), Ha, Hm in Hok.
           unfold mode_group in Hok. rewrite Hg in Hok. discriminate. }
      destruct (resolve (columns df) g) as [k|] eqn:Hk.
      2: { exfalso. rewrite (main_opening _ _ _ Hdf Hd), Ha, Hm in Hok.
           destruct (apply_filters_ok _ _ _ Hf) as [Hs _].
           unfold mode_group, bind, lift, print, grouped_by in Hok.
           rewrite Hg, Hf in Hok. cbn beta iota in Hok.
           rewrite (columns_of_schema _ _ Hs), Hk in Hok. discriminate. }
      split; [split; [reflexivity | exists g; split; [reflexivity | congruence]]|].
      intros path h Hout [= <-].
      rewrite (main_group_run _ _ _ _ _ _ Hdf Hd Ha Hm Hg Hk Hf), Hout in Hok.
      apply write_parquet_Ok in Hok as [Hal Hne].
      rewrite grouped_frame_distinct, negb_true_iff in Hal. now split.
  - intros [df [Hdf [Hd [[Ha Hv] Hw]]]].
    destruct (apply_filters_total df args Ha) as [df' Hf].
    destruct (mode args) eqn:Hm.
    + destruct (rows df') as [|r rs] eqn:Hrows.
      * rewrite (main_opening _ _ _ Hdf Hd), Ha, Hm. cbn [negb].
        rewrite (mode_filter_no_rows _ _ _ _ Hf); [reflexivity | now rewrite Hrows].
      * assert (rows df' <> []) as Hne by now rewrite Hrows.
        destruct (main_filter_rows _ _ _ _ Hdf Hd Ha Hm Hf Hne) as [Hd' ->].
        destruct (truthy (output args)) as [path|] eqn:Hout; [|reflexivity].
        apply write_parquet_Ok. split; [exact Hd'|]. intros ->.
        specialize (Hw eq_refl df' Hf). congruence.
    + destruct Hv as [g [Hg Hk]].
      destruct (resolve (columns df) g) as [k|] eqn:Ek; [|easy].
      rewrite (main_group_run _ _ _ _ _ _ Hdf Hd Ha Hm Hg Ek Hf).
      destruct (truthy (output args)) as [path|] eqn:Hout; [|reflexivity].
      apply write_parquet_Ok. destruct (Hw path g eq_refl Hg) as [Hne Hal].
      split; [|exact Hne]. now rewrite grouped_frame_distinct, Hal.
Qed.

End SuccessFacts.

(** ** The groups and their keys *)

Section KeyFacts.
Context {num : Type} {D : Double num}.
Implicit Types (a b k : value num) (r : gmap string (value num)).
Implicit Types (rs : list (gmap string (value num))).
Implicit Types (gs : list (value num * list (gmap string (value num)))).

Lemma key_eqb_eq a b : discrete a = true -> key_eqb a b = true <-> a = b.
Proof.
  destruct a, b; simpl; try easy; intros _.
  - rewrite Z.eqb_eq. split; congruence.
  - rewrite String.eqb_eq. split; congruence.
Qed.

Lemma group_key_discrete a : discrete a = true -> group_key a = a.
Proof. now destruct a. Qed.

Lemma key_eqb_refl a : discrete a = true -> key_eqb a a = true.
Proof. intros H. now apply key_eqb_eq. Qed.

Lemma key_eqb_neq a b : discrete a = true -> a <> b -> key_eqb a b = false.
Proof.
  intros Ha Hn. destruct (key_eqb a b) eqn:E; [|reflexivity].
  now apply key_eqb_eq in E.
Qed.

Lemma rows_of_key_app c k rs r :
  rows_of_key c k (rs ++ [r])
  = rows_of_key c k rs ++ (if key_eqb (cell r c) k then [r] else []).
Proof. unfold rows_of_key. rewrite List.filter_app. simpl. now destruct (key_eqb _ _). Qed.

Lemma rows_of_key_none c k rs :
  (forall r, In r rs -> key_eqb (cell r c) k = false) -> rows_of_key c k rs = [].
Proof.
  unfold rows_of_key. induction rs as [|r rs IH]; intros H; simpl; [reflexivity|].
  rewrite (H r) by now left. apply IH. intros r' Hr'. apply H. now right.
Qed.

(** The keys after a row is added: its key comes last if it is new. *)
Lemma add_to_group_keys k r gs :
  discrete k = true ->
  (In k (map fst gs) /\ map fst (add_to_group k r gs) = map fst gs) \/
  (~ In k (map fst gs) /\ map fst (add_to_group k r gs) = map fst gs ++ [k]).
Proof.
  intros Hk. induction gs as [|[k' part] gs IH]; simpl.
  - right. split; [tauto | reflexivity].
  - destruct (key_eqb k k') eqn:E.
    + apply key_eqb_eq in E; [|exact Hk]. subst k'. left. split; [now left | reflexivity].
    + assert (k' <> k) as Hn.
      { intros ->. now rewrite key_eqb_refl in E. }
      simpl. destruct IH as [[Hin ->]|[Hnin ->]]; [left | right]; split;
        try reflexivity; tauto.
Qed.

Lemma add_to_group_keyed c r rs gs :
  discrete (cell r c) = true -> List.NoDup (map fst gs) ->
  (~ In (cell r c) (map fst gs) -> rows_of_key c (cell r c) rs = []) ->
  keyed c rs gs -> keyed c (rs ++ [r]) (add_to_group (cell r c) r gs).
Proof.
  intros Hk. unfold keyed.
  induction gs as [|[k' part] gs IH]; simpl; intros Hnd Hnew Hp.
  - constructor; [|constructor]. simpl.
    rewrite rows_of_key_app, key_eqb_refl by exact Hk. now rewrite Hnew by tauto.
  - apply List.Forall_cons_iff in Hp as [Hpart Hrest]. simpl in Hpart.
    apply List.NoDup_cons_iff in Hnd as [Hnotin Hnd'].
    destruct (key_eqb (cell r c) k') eqn:E.
    + apply key_eqb_eq in E; [|exact Hk]. subst k'. constructor.
      * simpl. rewrite rows_of_key_app, key_eqb_refl by exact Hk. now rewrite <- Hpart.
      * rewrite List.Forall_forall in Hrest |- *. intros [k'' p''] Hin. simpl.
        rewrite rows_of_key_app, key_eqb_neq, app_nil_r; [now apply (Hrest _ Hin)
                                                          | exact Hk |].
        intros <-. apply Hnotin. now apply (in_map fst) in Hin.
    + constructor.
      * simpl. now rewrite rows_of_key_app, E, app_nil_r.
      * apply IH; [exact Hnd' | | exact Hrest].
        intros Hnin. apply Hnew. intros [->|Hin]; [|tauto].
        now rewrite key_eqb_refl in E.
Qed.

(** What [groupBy] keeps, row after row, when the keys are compared exactly. *)
Lemma groupBy_keyed c rs :
  Forall (fun r => discrete (cell r c) = true) rs ->
  keyed c rs (groupBy c rs) /\ List.NoDup (map fst (groupBy c rs)) /\
  forall k, In k (map fst (groupBy c rs)) <-> exists r, In r rs /\ cell r c = k.
Proof.
  induction rs as [|r rs IH] using rev_ind; intros Hd.
  - split; [constructor|]. split; [constructor|]. intros k. simpl.
    split; [tauto | now intros [r [[] _]]].
  - apply Forall_app in Hd as [Hd Hr]. inversion Hr as [|? ? Hk _]; subst.
    destruct (IH Hd) as [Hkeyed [Hnd Hcov]].
    unfold groupBy in *. rewrite fold_left_app. simpl.
    rewrite (group_key_discrete _ Hk). set (gs := fold_left _ rs []) in *.
    assert (~ In (cell r c) (map fst gs) -> rows_of_key c (cell r c) rs = []) as Hnew.
    { intros Hnin. apply rows_of_key_none. intros r' Hr'.
      rewrite List.Forall_forall in Hd. apply key_eqb_neq; [now apply Hd|].
      intros E. apply Hnin, Hcov. eauto. }
    split; [now apply add_to_group_keyed|].
    destruct (add_to_group_keys (cell r c) r gs Hk) as [[Hin ->]|[Hnin ->]].
    + split; [exact Hnd|]. intros k. rewrite Hcov. split.
      * intros [r' [Hr' E]]. exists r'. split; [apply in_or_app; now left | exact E].
      * intros [r' [Hr' E]]. apply in_app_or in Hr' as [Hr'|[<-|[]]]; [eauto|].
        subst k. now apply Hcov.
    + split.
      * apply List.NoDup_app; [exact Hnd | constructor; [tauto|constructor] |].
        intros x Hx [<-|[]]. tauto.
      * intros k. rewrite in_app_iff, Hcov. simpl. split.
        -- intros [[r' [Hr' E]]|[<-|[]]].
           ++ exists r'. split; [apply in_or_app; now left | exact E].
           ++ exists r. split; [apply in_or_app; right; now left | reflexivity].
        -- intros [r' [Hr' E]]. apply in_app_or in Hr' as [Hr'|[<-|[]]]; eauto.
Qed.

End KeyFacts.

Section OrderFacts.
Context {num : Type} {D : Double num}.
Implicit Types (a b c : value num) (r : gmap string (value num)).
Implicit Types (rs : list (gmap string (value num))).
Implicit Types (g h : GroupRow num) (hs : list (GroupRow num)).

Lemma ascii_compare_trans (a b c : ascii) :
  Ascii.compare a b <> Gt -> Ascii.compare b c <> Gt -> Ascii.compare a c <> Gt.
Proof.
  unfold Ascii.compare. rewrite !N.compare_le_iff. lia.
Qed.

Lemma string_leb_trans (s t u : string) :
  String.leb s t = true -> String.leb t u = true -> String.leb s u = true.
Proof.
  unfold String.leb. revert t u. induction s as [|a s IH]; intros [|b t] [|c u];
    simpl; try easy.
  intros H1 H2. specialize (IH t u).
  destruct (Ascii.compare a b) eqn:Eab; [|clear H1|discriminate];
    destruct (Ascii.compare b c) eqn:Ebc; try discriminate.
  - apply Ascii.compare_eq_iff in Eab, Ebc. subst.
    assert (Ascii.compare c c = Eq) as -> by (unfold Ascii.compare; apply N.compare_refl).
    now apply IH.
  - apply Ascii.compare_eq_iff in Eab. subst. now rewrite Ebc.
  - apply Ascii.compare_eq_iff in Ebc. subst. now rewrite Eab.
  - assert (Ascii.compare a c = Lt) as ->; [|reflexivity].
    revert Eab Ebc. unfold Ascii.compare. rewrite !N.compare_lt_iff. lia.
Qed.

(** On a column of strings, and on a column of longs, [key_leb] is a total
    preorder with NULL first. *)
Lemma key_leb_total_strings a b :
  string_or_null a = true -> string_or_null b = true ->
  key_leb a b = true \/ key_leb b a = true.
Proof.
  destruct a, b; simpl; try easy; auto. intros _ _.
  destruct (String.leb_total s s0) as [->| ->]; auto.
Qed.

Lemma key_leb_trans_strings a b c :
  string_or_null a = true -> string_or_null b = true -> string_or_null c = true ->
  key_leb a b = true -> key_leb b c = true -> key_leb a c = true.
Proof.
  destruct a, b, c; simpl; try easy. intros _ _ _ H1 H2.
  destruct (String.leb s s0) eqn:E1; [|discriminate].
  destruct (String.leb s0 s1) eqn:E2; [|discriminate].
  now rewrite (string_leb_trans _ _ _ E1 E2).
Qed.

Lemma key_leb_total_longs a b :
  long_or_null a = true -> long_or_null b = true ->
  key_leb a b = true \/ key_leb b a = true.
Proof.
  destruct a, b; simpl; try easy; auto. intros _ _.
  destruct (Z.leb_spec z z0); [now left|]. right.
  destruct (Z.leb_spec z0 z); [reflexivity | lia].
Qed.

Lemma key_leb_trans_longs a b c :
  long_or_null a = true -> long_or_null b = true -> long_or_null c = true ->
  key_leb a b = true -> key_leb b c = true -> key_leb a c = true.
Proof.
  destruct a, b, c; simpl; try easy. intros _ _ _.
  destruct (Z.leb_spec z z0); [|discriminate].
  destruct (Z.leb_spec z0 z1); [|discriminate]. intros _ _.
  destruct (Z.leb_spec z z1); [reflexivity | lia].
Qed.

Lemma insert_by_key_Permutation g hs : Permutation (insert_by_key g hs) (g :: hs).
Proof.
  induction hs as [|h hs IH]; simpl; [reflexivity|].
  destruct (key_leb _ _); [reflexivity|].
  rewrite IH. apply perm_swap.
Qed.

Lemma orderBy_Permutation hs : Permutation (orderBy hs) hs.
Proof.
  induction hs as [|h hs IH]; simpl; [reflexivity|].
  rewrite insert_by_key_Permutation. now constructor.
Qed.

Section Sorting.
Variable dom : value num -> bool.
Hypothesis dom_total : forall a b,
  dom a = true -> dom b = true -> key_leb a b = true \/ key_leb b a = true.
Hypothesis dom_trans : forall a b c,
  dom a = true -> dom b = true -> dom c = true ->
  key_leb a b = true -> key_leb b c = true -> key_leb a c = true.

Lemma insert_by_key_sorted g hs :
  dom (g_key g) = true -> Forall (fun h => dom (g_key h) = true) hs ->
  StronglySorted (fun g h => key_leb (g_key g) (g_key h) = true) hs ->
  StronglySorted (fun g h => key_leb (g_key g) (g_key h) = true) (insert_by_key g hs).
Proof.
  intros Hg. induction hs as [|h hs IH]; intros Hd Hs; simpl.
  - constructor; constructor.
  - apply List.Forall_cons_iff in Hd as [Hh Hd].
    apply StronglySorted_inv in Hs as [Hs Hall].
    rewrite List.Forall_forall in Hall, Hd.
    destruct (key_leb (g_key g) (g_key h)) eqn:E.
    + constructor; [constructor; [exact Hs | now apply List.Forall_forall]|].
      constructor; [exact E|]. apply List.Forall_forall. intros x Hx.
      apply (dom_trans _ (g_key h)); auto.
    + constructor; [apply IH; [now apply List.Forall_forall | exact Hs]|].
      apply List.Forall_forall. intros x Hx. apply insert_by_key_In in Hx as [->|Hx]; auto.
      destruct (dom_total (g_key g) (g_key h) Hg Hh) as [H|H]; congruence.
Qed.

Lemma orderBy_sorted hs :
  Forall (fun h => dom (g_key h) = true) hs ->
  StronglySorted (fun g h => key_leb (g_key g) (g_key h) = true) (orderBy hs).
Proof.
  induction hs as [|h hs IH]; intros Hd; [constructor|].
  change (orderBy (h :: hs)) with (insert_by_key h (orderBy hs)).
  apply List.Forall_cons_iff in Hd as [Hh Hd].
  apply insert_by_key_sorted; [exact Hh | | now apply IH].
  apply List.Forall_forall. intros x Hx. apply (proj1 (orderBy_In x hs)) in Hx.
  rewrite List.Forall_forall in Hd. now apply Hd.
Qed.

End Sorting.

(** Every key of [groupBy] is the key cell of a row. *)
Lemma add_to_group_key_cells (k : value num) r gs p :
  In p (add_to_group k r gs) -> fst p = k \/ exists q, In q gs /\ fst q = fst p.
Proof.
  induction gs as [|[k' part] gs IH]; simpl.
  - intros [<-|[]]. now left.
  - destruct (key_eqb k k'); simpl.
    + intros [<-|Hin]; right; [exists (k', part) | exists p]; auto.
    + intros [<-|Hin]; [right; exists (k', part); auto|].
      destruct (IH Hin) as [H|[q [Hq E]]]; [now left | right; eauto].
Qed.

Lemma groupBy_key_cells (col : string) rs p :
  In p (groupBy col rs) -> exists r, In r rs /\ fst p = group_key (cell r col).
Proof.
  unfold groupBy. revert p. induction rs as [|r rs IH] using rev_ind; intros p.
  - intros [].
  - rewrite fold_left_app. simpl. intros Hin.
    apply add_to_group_key_cells in Hin as [E|[q [Hq E]]].
    + exists r. split; [apply in_or_app; right; now left | exact E].
    + destruct (IH q Hq) as [r' [Hr' E']]. exists r'.
      split; [apply in_or_app; now left | congruence].
Qed.

Lemma grouped_rows_keys_in (dom : value num -> bool) (k a : string) rs :
  (forall v, dom v = true -> discrete v = true) ->
  Forall (fun r => dom (cell r k) = true) rs ->
  Forall (fun g => dom (g_key g) = true)
    (map (fun p => {| g_key := fst p; g_count := length (snd p);
                      g_stats := agg a (snd p) |}) (groupBy k rs)).
Proof.
  intros Hdom Hd. apply List.Forall_forall. intros g Hg.
  apply in_map_iff in Hg as [p [<- Hp]]. simpl.
  destruct (groupBy_key_cells _ _ _ Hp) as [r [Hr ->]].
  rewrite List.Forall_forall in Hd. rewrite group_key_discrete; auto.
Qed.

(** X9: when the keys are not doubles (strings, longs, NULL), the groups
    are the distinct key cells of the rows, each once, NULL a key like any
    other; the count of a group is the number of rows with its key and its
    statistics are those of exactly these rows. *)
Theorem groups_are_the_rows_of_their_keys (k a : string) rs :
  Forall (fun r => discrete (cell r k) = true) rs ->
  List.NoDup (map g_key (grouped_rows k a rs)) /\
  (forall key, In key (map g_key (grouped_rows k a rs)) <->
               exists r, In r rs /\ cell r k = key) /\
  forall g, In g (grouped_rows k a rs) ->
    g_count g = length (rows_of_key k (g_key g) rs) /\
    g_stats g = agg a (rows_of_key k (g_key g) rs).
Proof.
  intros Hd. destruct (groupBy_keyed k rs Hd) as [Hkeyed [Hnd Hcov]].
  unfold grouped_rows.
  set (mk := fun p : value num * list (gmap string (value num)) =>
               {| g_key := fst p; g_count := length (snd p); g_stats := agg a (snd p) |}).
  assert (map g_key (map mk (groupBy k rs)) = map fst (groupBy k rs)) as Hkeys.
  { rewrite map_map. reflexivity. }
  pose proof (Permutation_map g_key (orderBy_Permutation (map mk (groupBy k rs)))) as Hp.
  rewrite Hkeys in Hp. split; [|split].
  - eapply Permutation_NoDup; [symmetry; exact Hp | exact Hnd].
  - intros key. rewrite <- Hcov. split; intros H.
    + eapply Permutation_in; [exact Hp | exact H].
    + eapply Permutation_in; [symmetry; exact Hp | exact H].
  - intros g Hg. apply orderBy_In, in_map_iff in Hg as [p [<- Hin]].
    unfold keyed in Hkeyed. rewrite List.Forall_forall in Hkeyed.
    subst mk. cbn [g_key g_count g_stats]. rewrite <- (Hkeyed p Hin).
    split; reflexivity.
Qed.

(** X10: on a key column of strings, or of longs, the groups come in
    ascending order of their keys, every key before all later ones, NULL
    first. *)
Theorem groups_are_sorted_by_key (k a : string) rs :
  Forall (fun r => string_or_null (cell r k) = true) rs \/
  Forall (fun r => long_or_null (cell r k) = true) rs ->
  StronglySorted (fun g h => key_leb (g_key g) (g_key h) = true) (grouped_rows k a rs).
Proof.
  unfold grouped_rows. intros [Hd|Hd].
  - apply (orderBy_sorted string_or_null key_leb_total_strings key_leb_trans_strings).
    apply grouped_rows_keys_in; [now intros [] | exact Hd].
  - apply (orderBy_sorted long_or_null key_leb_total_longs key_leb_trans_longs).
    apply grouped_rows_keys_in; [now intros [] | exact Hd].
Qed.

End OrderFacts.

(** ** The cells behind min and max, and the order of the rows *)

Section CellFacts.
Context {num : Type} {D : Double num}.
Implicit Types (v acc : value num) (vs : list (value num)).
Implicit Types (r : gmap string (value num)) (rs : list (gmap string (value num))).

Lemma least_picks acc v : least acc v = acc \/ least acc v = v.
Proof. unfold least. destruct acc, v; try destruct (sql_le _ _) as [[|]|]; auto. Qed.

Lemma greatest_picks acc v : greatest acc v = acc \/ greatest acc v = v.
Proof. unfold greatest. destruct acc, v; try destruct (sql_ge _ _) as [[|]|]; auto. Qed.

Lemma fold_picks (f : value num -> value num -> value num) :
  (forall acc v, f acc v = acc \/ f acc v = v) ->
  forall vs acc, fold_left f vs acc = acc \/ In (fold_left f vs acc) vs.
Proof.
  intros Hf. induction vs as [|v vs IH]; intros acc; simpl; [now left|].
  destruct (IH (f acc v)) as [E|Hin]; [|now right; right].
  rewrite E. destruct (Hf acc v) as [->| ->]; [now left | right; now left].
Qed.

(** X11: in any arithmetic, the min and the max reported are cells of the
    attribute column among the rows aggregated, unless they are null. *)
Theorem min_and_max_are_cells (c : string) rs :
  (stat_min (agg c rs) = VNull \/
   exists r, In r rs /\ cell r c = stat_min (agg c rs)) /\
  (stat_max (agg c rs) = VNull \/
   exists r, In r rs /\ cell r c = stat_max (agg c rs)).
Proof.
  unfold agg. cbn [stat_min stat_max]. split.
  - destruct (fold_picks least least_picks (map (fun r => cell r c) rs) VNull)
      as [E|Hin]; [now left | right].
    apply in_map_iff in Hin as [r [E Hr]]. eauto.
  - destruct (fold_picks greatest greatest_picks (map (fun r => cell r c) rs) VNull)
      as [E|Hin]; [now left | right].
    apply in_map_iff in Hin as [r [E Hr]]. eauto.
Qed.

End CellFacts.

Section ExactOrderFacts.
Local Open Scope R_scope.
Implicit Types (v : value R) (vs : list (value R)) (xs : list R).
Implicit Types (r : gmap string (value R)) (rs : list (gmap string (value R))).

Lemma Rsum_Permutation xs ys : Permutation xs ys -> Rsum xs = Rsum ys.
Proof.
  unfold Rsum. induction 1; simpl; lra.
Qed.

Lemma mean_Permutation xs ys : Permutation xs ys -> mean xs = mean ys.
Proof.
  intros H. unfold mean.
  now rewrite (Rsum_Permutation _ _ H), (Permutation_length H).
Qed.

Lemma sample_variance_Permutation xs ys :
  Permutation xs ys -> sample_variance xs = sample_variance ys.
Proof.
  intros H. unfold sample_variance, sum_sq_dev.
  rewrite (mean_Permutation _ _ H), (Permutation_length H). f_equal.
  apply Rsum_Permutation. now apply Permutation_map.
Qed.

Lemma doubles_Permutation vs vs' :
  Permutation vs vs' -> Permutation (doubles vs) (doubles vs').
Proof. intros H. unfold doubles. now rewrite H. Qed.

Lemma stddev_samp_Permutation xs ys :
  Permutation xs ys -> stddev_samp xs = stddev_samp ys.
Proof.
  intros H. pose proof (Permutation_length H) as Hl.
  destruct (Nat.lt_ge_cases (length xs) 2) as [Hlt|Hge].
  - rewrite (proj2 (stddev_samp_null_iff xs) Hlt).
    symmetry. apply stddev_samp_null_iff. now rewrite <- Hl.
  - rewrite (stddev_samp_exact xs Hge), (stddev_samp_exact ys) by now rewrite <- Hl.
    now rewrite (sample_variance_Permutation _ _ H).
Qed.

Lemma F_avg_Permutation vs vs' : Permutation vs vs' -> F_avg vs = F_avg vs'.
Proof.
  intros H. apply doubles_Permutation in H.
  destruct (doubles vs) as [|x xs] eqn:E.
  - apply Permutation_nil in H.
    now rewrite (proj2 (F_avg_null_iff vs) E), (proj2 (F_avg_null_iff vs') H).
  - rewrite (F_avg_exact vs), (F_avg_exact vs'), E.
    + now rewrite (mean_Permutation _ _ H).
    + intros E'. rewrite E' in H. symmetry in H. now apply Permutation_nil in H.
    + now rewrite E.
Qed.

Lemma to_double_null v : number_or_null v = true -> to_double v = None -> v = VNull.
Proof. destruct v; simpl; try easy. Qed.

Lemma F_min_number vs :
  Forall (fun v => number_or_null v = true) vs -> number_or_null (F_min vs) = true.
Proof.
  intros H. destruct (fold_picks least least_picks vs VNull) as [E|Hin].
  - unfold F_min. now rewrite E.
  - rewrite List.Forall_forall in H. now apply H.
Qed.

Lemma F_max_number vs :
  Forall (fun v => number_or_null v = true) vs -> number_or_null (F_max vs) = true.
Proof.
  intros H. destruct (fold_picks greatest greatest_picks vs VNull) as [E|Hin].
  - unfold F_max. now rewrite E.
  - rewrite List.Forall_forall in H. now apply H.
Qed.

(** The double of the minimum is one of the doubles aggregated. *)
Lemma F_min_in_doubles vs lo :
  to_double (F_min vs) = Some lo -> In lo (doubles vs).
Proof.
  intros E. destruct (fold_picks least least_picks vs VNull) as [E'|Hin].
  - unfold F_min in E. now rewrite E' in E.
  - now apply (In_doubles vs (F_min vs)).
Qed.

Lemma F_max_in_doubles vs hi :
  to_double (F_max vs) = Some hi -> In hi (doubles vs).
Proof.
  intros E. destruct (fold_picks greatest greatest_picks vs VNull) as [E'|Hin].
  - unfold F_max in E. now rewrite E' in E.
  - now apply (In_doubles vs (F_max vs)).
Qed.

Lemma F_min_le_Permutation vs vs' lo :
  Forall (fun v => number_or_null v = true) vs' -> Permutation vs vs' ->
  to_double (F_min vs) = Some lo ->
  exists lo', to_double (F_min vs') = Some lo' /\ lo' <= lo.
Proof.
  intros Hn Hp E. apply F_min_below; [exact Hn|].
  eapply Permutation_in; [apply doubles_Permutation, Hp | now apply F_min_in_doubles].
Qed.

Lemma F_max_ge_Permutation vs vs' hi :
  Forall (fun v => number_or_null v = true) vs' -> Permutation vs vs' ->
  to_double (F_max vs) = Some hi ->
  exists hi', to_double (F_max vs') = Some hi' /\ hi <= hi'.
Proof.
  intros Hn Hp E. apply F_max_above; [exact Hn|].
  eapply Permutation_in; [apply doubles_Permutation, Hp | now apply F_max_in_doubles].
Qed.

Lemma F_min_Permutation vs vs' :
  Forall (fun v => number_or_null v = true) vs -> Permutation vs vs' ->
  to_double (F_min vs) = to_double (F_min vs').
Proof.
  intros Hn Hp.
  assert (Forall (fun v => number_or_null v = true) vs') as Hn'.
  { eapply Permutation_Forall; eauto. }
  destruct (to_double (F_min vs)) as [lo|] eqn:E;
    destruct (to_double (F_min vs')) as [lo'|] eqn:E'.
  - destruct (F_min_le_Permutation vs vs' lo Hn' Hp E) as [x [Ex Hx]].
    destruct (F_min_le_Permutation vs' vs lo' Hn (Permutation_sym Hp) E') as [y [Ey Hy]].
    f_equal. assert (x = lo') by congruence. assert (y = lo) by congruence. lra.
  - destruct (F_min_le_Permutation vs vs' lo Hn' Hp E) as [x [Ex _]]. congruence.
  - destruct (F_min_le_Permutation vs' vs lo' Hn (Permutation_sym Hp) E') as [y [Ey _]].
    congruence.
  - reflexivity.
Qed.

Lemma F_max_Permutation vs vs' :
  Forall (fun v => number_or_null v = true) vs -> Permutation vs vs' ->
  to_double (F_max vs) = to_double (F_max vs').
Proof.
  intros Hn Hp.
  assert (Forall (fun v => number_or_null v = true) vs') as Hn'.
  { eapply Permutation_Forall; eauto. }
  destruct (to_double (F_max vs)) as [hi|] eqn:E;
    destruct (to_double (F_max vs')) as [hi'|] eqn:E'.
  - destruct (F_max_ge_Permutation vs vs' hi Hn' Hp E) as [x [Ex Hx]].
    destruct (F_max_ge_Permutation vs' vs hi' Hn (Permutation_sym Hp) E') as [y [Ey Hy]].
    f_equal. assert (x = hi') by congruence. assert (y = hi) by congruence. lra.
  - destruct (F_max_ge_Permutation vs vs' hi Hn' Hp E) as [x [Ex _]]. congruence.
  - destruct (F_max_ge_Permutation vs' vs hi' Hn (Permutation_sym Hp) E') as [y [Ey _]].
    congruence.
  - reflexivity.
Qed.

(** X12 (in exact arithmetic): over numeric cells, the min reported is below
    and the max above every cell that holds a number, and both are among
    these numbers. *)
Theorem exact_min_and_max_bound_every_cell (c : string) rs r x :
  Forall (fun r => number_or_null (cell r c) = true) rs ->
  In r rs -> to_double (cell r c) = Some x ->
  exists lo hi,
    to_double (stat_min (agg c rs)) = Some lo /\
    to_double (stat_max (agg c rs)) = Some hi /\
    lo <= x <= hi /\
    In lo (doubles (map (fun r => cell r c) rs)) /\
    In hi (doubles (map (fun r => cell r c) rs)).
Proof.
  intros Hn Hr Ex. unfold agg. cbn [stat_min stat_max].
  set (vs := map (fun r => cell r c) rs).
  assert (Forall (fun v => number_or_null v = true) vs) as Hvs.
  { subst vs. now rewrite List.Forall_map. }
  assert (In x (doubles vs)) as Hx.
  { apply (In_doubles vs (cell r c)); [|exact Ex]. subst vs.
    now apply (in_map (fun r => cell r c)). }
  destruct (F_min_below vs x Hvs Hx) as [lo [Elo Hlo]].
  destruct (F_max_above vs x Hvs Hx) as [hi [Ehi Hhi]].
  exists lo, hi. repeat split; auto.
  - now apply F_min_in_doubles.
  - now apply F_max_in_doubles.
Qed.

(** X13 (in exact arithmetic): the mean and the deviation do not depend on
    the order in which the rows are aggregated, nor do, over numeric cells,
    the min and the max. *)
Theorem exact_statistics_ignore_row_order (c : string) rs rs' :
  Permutation rs rs' ->
  stat_avg (agg c rs) = stat_avg (agg c rs') /\
  stat_stddev (agg c rs) = stat_stddev (agg c rs') /\
  (Forall (fun r => number_or_null (cell r c) = true) rs ->
   to_double (stat_min (agg c rs)) = to_double (stat_min (agg c rs')) /\
   to_double (stat_max (agg c rs)) = to_double (stat_max (agg c rs'))).
Proof.
  intros Hp. unfold agg. cbn [stat_min stat_max stat_avg stat_stddev].
  pose proof (Permutation_map (fun r => cell r c) Hp) as Hv.
  split; [now apply F_avg_Permutation|]. split.
  - unfold F_stddev. now apply stddev_samp_Permutation, doubles_Permutation.
  - intros Hn.
    assert (Forall (fun v => number_or_null v = true) (map (fun r => cell r c) rs)) as Hvs.
    { now rewrite List.Forall_map. }
    split; [now apply F_min_Permutation | now apply F_max_Permutation].
Qed.

End ExactOrderFacts.

(** ** Bounds in exact arithmetic *)

Section ExactBounds.
Local Open Scope R_scope.
Implicit Types (df : DataFrame R) (args : Args R) (v : value R).

Lemma sql_ge_exact v lo :
  holds (sql_ge v (VDouble lo)) = true <-> exists x, to_double v = Some x /\ lo <= x.
Proof.
  unfold sql_ge, sql_le, holds. cbn [to_double].
  destruct v as [|z|y|s]; cbn [to_double].
  - split; [discriminate | now intros [x [? _]]].
  - change (dleb lo (of_Z z)) with (Rleb lo (IZR z)).
    destruct (Rleb lo (IZR z)) eqn:E.
    + apply Rleb_le in E. split; eauto.
    + split; [discriminate|]. intros [x [[= <-] Hx]]. apply Rleb_le in Hx. congruence.
  - change (dleb lo y) with (Rleb lo y). destruct (Rleb lo y) eqn:E.
    + apply Rleb_le in E. split; eauto.
    + split; [discriminate|]. intros [x [[= <-] Hx]]. apply Rleb_le in Hx. congruence.
  - destruct (cast_double s) as [y|]; [|split; [discriminate | now intros [x [? _]]]].
    change (dleb lo y) with (Rleb lo y). destruct (Rleb lo y) eqn:E.
    + apply Rleb_le in E. split; eauto.
    + split; [discriminate|]. intros [x [[= <-] Hx]]. apply Rleb_le in Hx. congruence.
Qed.

Lemma sql_le_exact_bound v hi :
  holds (sql_le v (VDouble hi)) = true <-> exists x, to_double v = Some x /\ x <= hi.
Proof.
  unfold sql_le, holds. cbn [to_double].
  destruct v as [|z|y|s]; cbn [to_double].
  - split; [discriminate | now intros [x [? _]]].
  - change (dleb (of_Z z) hi) with (Rleb (IZR z) hi).
    destruct (Rleb (IZR z) hi) eqn:E.
    + apply Rleb_le in E. split; eauto.
    + split; [discriminate|]. intros [x [[= <-] Hx]]. apply Rleb_le in Hx. congruence.
  - change (dleb y hi) with (Rleb y hi). destruct (Rleb y hi) eqn:E.
    + apply Rleb_le in E. split; eauto.
    + split; [discriminate|]. intros [x [[= <-] Hx]]. apply Rleb_le in Hx. congruence.
  - destruct (cast_double s) as [y|]; [|split; [discriminate | now intros [x [? _]]]].
    change (dleb y hi) with (Rleb y hi). destruct (Rleb y hi) eqn:E.
    + apply Rleb_le in E. split; eauto.
    + split; [discriminate|]. intros [x [[= <-] Hx]]. apply Rleb_le in Hx. congruence.
Qed.

(** X4 (in exact arithmetic): with both bounds given, the rows kept are
    exactly the rows in the time window whose attribute reads as a number x
    with min_value <= x <= max_value, both bounds included; a cell that is
    NULL or no number is dropped. *)
Theorem exact_bounds_are_inclusive df df' args (c : string) lo hi r :
  apply_filters df args = Ok df' ->
  resolve (columns df) (attribute args) = Some c ->
  min_value args = Some lo -> max_value args = Some hi ->
  In r (rows df') <->
  In r (rows df) /\ time_passes (columns df) args r = true /\
  exists x, to_double (cell r c) = Some x /\ lo <= x <= hi.
Proof.
  intros Hf Hc Hlo Hhi. apply apply_filters_filter in Hf. subst df'. cbn [rows].
  rewrite filter_In. unfold row_passes, bounds_pass. rewrite Hc, Hlo, Hhi.
  rewrite !andb_true_iff, sql_ge_exact, sql_le_exact_bound. split.
  - intros [Hr [Ht [[x [Ex Hx]] [y [Ey Hy]]]]]. split; [exact Hr|]. split; [exact Ht|].
    exists x. split; [exact Ex|]. rewrite Ex in Ey. injection Ey as <-. lra.
  - intros [Hr [Ht [x [Ex Hx]]]]. split; [exact Hr|]. split; [exact Ht|].
    split; exists x; split; auto; lra.
Qed.

End ExactBounds.

(** ** The further properties on the trips *)

Lemma apply_filters_is_one_filter_witness :
  apply_filters Scenario.trips
    (Scenario.query Filter "amt" (Some 10%float) None None None None None)
  = Ok {| schema := Scenario.trip_schema;
          rows := [Scenario.trip (VLong 10) "A" "2016-01-01 08:00:00";
                   Scenario.trip (VLong 20) "A" "2016-01-02 09:30:00"] |} /\
  {| schema := Scenario.trip_schema;
     rows := [Scenario.trip (VLong 10) "A" "2016-01-01 08:00:00";
              Scenario.trip (VLong 20) "A" "2016-01-02 09:30:00"] |}
  = {| schema := schema Scenario.trips;
       rows := List.filter
                 (row_passes (columns Scenario.trips)
                    (Scenario.query Filter "amt" (Some 10%float) None None None None None))
                 (rows Scenario.trips) |}.
Proof.
  split; [vm_compute; reflexivity|].
  apply (apply_filters_is_one_filter Scenario.trips
           (Scenario.query Filter "amt" (Some 10%float) None None None None None)).
  vm_compute. reflexivity.
Defined.

Lemma apply_filters_keeps_order_witness :
  sublist [Scenario.trip (VLong 10) "A" "2016-01-01 08:00:00";
           Scenario.trip (VLong 5) "B" "2016-01-03 17:45:00"]
          (rows Scenario.trips) /\
  (2 <= length (rows Scenario.trips))%nat.
Proof.
  apply (apply_filters_keeps_order Scenario.trips
           (Scenario.query Filter "amt" None (Some 10%float) None None None None)
           {| schema := Scenario.trip_schema;
              rows := [Scenario.trip (VLong 10) "A" "2016-01-01 08:00:00";
                       Scenario.trip (VLong 5) "B" "2016-01-03 17:45:00"] |}).
  vm_compute. reflexivity.
Defined.

Lemma apply_filters_idempotent_witness :
  apply_filters
    {| schema := Scenario.trip_schema;
       rows := [Scenario.trip (VLong 20) "A" "2016-01-02 09:30:00"] |}
    (Scenario.query Filter "amt" (Some 10%float) None (Some "2016-01-02") None None None)
  = Ok {| schema := Scenario.trip_schema;
          rows := [Scenario.trip (VLong 20) "A" "2016-01-02 09:30:00"] |}.
Proof.
  apply (apply_filters_idempotent Scenario.trips). vm_compute. reflexivity.
Defined.

Lemma filter_mode_reports_filtered_rows_witness :
  exists result store,
    main (Scenario.query Filter "amt" (Some 10%float) None None None None
            (Some "hdfs:///out"))
         Scenario.world
    = (result,
       {| console :=
            [ReadingFrom Scenario.taxi; PrintSchema Scenario.trip_schema;
             FilterMode "amt" 2;
             Statistics (agg "amt" [Scenario.trip (VLong 10) "A" "2016-01-01 08:00:00";
                                    Scenario.trip (VLong 20) "A" "2016-01-02 09:30:00"]);
             WritingFiltered "hdfs:///out"];
          hdfs := store |}) /\
    (Some "hdfs:///out" <> Some Scenario.taxi ->
     result = Ok tt /\
     store = <["hdfs:///out" :=
                {| schema := Scenario.trip_schema;
                   rows := [Scenario.trip (VLong 10) "A" "2016-01-01 08:00:00";
                            Scenario.trip (VLong 20) "A" "2016-01-02 09:30:00"] |}]>
               (hdfs Scenario.world)) /\
    (Some "hdfs:///out" = Some Scenario.taxi ->
     result = Raise (WriteFailed Scenario.taxi) /\
     store = delete Scenario.taxi (hdfs Scenario.world)).
Proof.
  apply (filter_mode_reports_filtered_rows
           (Scenario.query Filter "amt" (Some 10%float) None None None None
              (Some "hdfs:///out"))
           Scenario.world Scenario.trips
           {| schema := Scenario.trip_schema;
              rows := [Scenario.trip (VLong 10) "A" "2016-01-01 08:00:00";
                       Scenario.trip (VLong 20) "A" "2016-01-02 09:30:00"] |}).
  - vm_compute. reflexivity.
  - reflexivity.
  - reflexivity.
  - reflexivity.
  - vm_compute. reflexivity.
  - simpl. discriminate.
Defined.

Lemma group_mode_reports_groups_witness :
  exists result store,
    main (Scenario.query Group "amt" None None None None (Some "ZONE")
            (Some "hdfs:///out"))
         Scenario.world
    = (result,
       {| console :=
            [ReadingFrom Scenario.taxi; PrintSchema Scenario.trip_schema;
             GroupMode "ZONE" "amt";
             GroupedStatistics
               (firstn 50 (grouped_rows "zone" "amt" (rows Scenario.trips)));
             WritingGrouped "hdfs:///out"];
          hdfs := store |}) /\
    result = Ok tt /\
    store = <["hdfs:///out" :=
               {| schema := [("ZONE", StringType); ("count", LongType);
                             ("min", LongType); ("max", LongType);
                             ("avg", DoubleType); ("stddev", DoubleType)];
                  rows := map (group_cells "ZONE")
                            (grouped_rows "zone" "amt" (rows Scenario.trips)) |}]>
              (hdfs Scenario.world).
Proof.
  apply (group_mode_reports_groups
           (Scenario.query Group "amt" None None None None (Some "ZONE")
              (Some "hdfs:///out"))
           Scenario.world Scenario.trips Scenario.trips "ZONE" "zone").
  - vm_compute. reflexivity.
  - reflexivity.
  - reflexivity.
  - reflexivity.
  - reflexivity.
  - reflexivity.
  - vm_compute. reflexivity.
Defined.

Lemma groups_are_the_rows_of_their_keys_witness :
  List.NoDup (map g_key (grouped_rows "zone" "amt" (rows Scenario.trips_with_null))) /\
  (forall key,
     In key (map g_key (grouped_rows "zone" "amt" (rows Scenario.trips_with_null))) <->
     exists r, In r (rows Scenario.trips_with_null) /\ cell r "zone" = key) /\
  forall g, In g (grouped_rows "zone" "amt" (rows Scenario.trips_with_null)) ->
    g_count g = length (rows_of_key "zone" (g_key g) (rows Scenario.trips_with_null)) /\
    g_stats g = agg "amt" (rows_of_key "zone" (g_key g) (rows Scenario.trips_with_null)).
Proof.
  apply (groups_are_the_rows_of_their_keys "zone" "amt" (rows Scenario.trips_with_null)).
  repeat constructor.
Defined.

Lemma groups_are_sorted_by_key_witness :
  StronglySorted (fun g h => key_leb (g_key g) (g_key h) = true)
    (grouped_rows "zone" "amt" (rows Scenario.trips_with_null)).
Proof.
  apply (groups_are_sorted_by_key "zone" "amt" (rows Scenario.trips_with_null)).
  left. repeat constructor.
Defined.

Lemma exact_min_and_max_bound_every_cell_witness :
  exists lo hi : R,
    to_double (stat_min (agg "amt" Scenario.two_amounts)) = Some lo /\
    to_double (stat_max (agg "amt" Scenario.two_amounts)) = Some hi /\
    (lo <= 20 <= hi)%R /\
    In lo (doubles (map (fun r => cell r "amt") Scenario.two_amounts)) /\
    In hi (doubles (map (fun r => cell r "amt") Scenario.two_amounts)).
Proof.
  apply (exact_min_and_max_bound_every_cell "amt" Scenario.two_amounts
           {[ "amt" := VLong 20 ]} 20%R).
  - repeat constructor.
  - right. left. reflexivity.
  - vm_compute. reflexivity.
Defined.

Lemma exact_statistics_ignore_row_order_witness :
  stat_avg (agg "amt" Scenario.two_amounts)
  = stat_avg (agg "amt" [ {[ "amt" := VLong 20 ]}; {[ "amt" := VLong 10 ]} ]) /\
  stat_stddev (agg "amt" Scenario.two_amounts)
  = stat_stddev (agg "amt" [ {[ "amt" := VLong 20 ]}; {[ "amt" := VLong 10 ]} ]) /\
  (Forall (fun r => number_or_null (cell r "amt") = true) Scenario.two_amounts ->
   to_double (stat_min (agg "amt" Scenario.two_amounts))
   = to_double (stat_min (agg "amt" [ {[ "amt" := VLong 20 ]}; {[ "amt" := VLong 10 ]} ])) /\
   to_double (stat_max (agg "amt" Scenario.two_amounts))
   = to_double (stat_max (agg "amt" [ {[ "amt" := VLong 20 ]}; {[ "amt" := VLong 10 ]} ]))).
Proof.
  apply (exact_statistics_ignore_row_order "amt" Scenario.two_amounts
           [ {[ "amt" := VLong 20 ]}; {[ "amt" := VLong 10 ]} ]).
  apply perm_swap.
Defined.

Lemma exact_bounds_are_inclusive_witness :
  In ({[ "amt" := VLong 10 ]} : gmap string (value R)) (rows ExactScenario.trips) <->
  In {[ "amt" := VLong 10 ]} (rows ExactScenario.trips) /\
  time_passes (columns ExactScenario.trips) (ExactScenario.between 10 20)
    {[ "amt" := VLong 10 ]} = true /\
  exists x : R, to_double (cell ({[ "amt" := VLong 10 ]} : gmap string (value R)) "amt")
                = Some x /\ (10 <= x <= 20)%R.
Proof.
  apply (exact_bounds_are_inclusive ExactScenario.trips ExactScenario.trips
           (ExactScenario.between 10 20) "amt" 10%R 20%R {[ "amt" := VLong 10 ]}).
  - destruct (apply_filters_total ExactScenario.trips (ExactScenario.between 10 20)
                eq_refl) as [d Hd].
    rewrite Hd. f_equal. apply apply_filters_filter in Hd. rewrite Hd.
    assert (forall z : Z, (10 <= z <= 20)%Z ->
              row_passes (columns ExactScenario.trips) (ExactScenario.between 10 20)
                {[ "amt" := VLong z ]} = true) as Hin.
    { intros z [Hlo Hhi]. apply IZR_le in Hlo, Hhi. unfold row_passes.
      apply andb_true_iff. split; [reflexivity|]. unfold bounds_pass.
      change (resolve (columns ExactScenario.trips)
                (attribute (ExactScenario.between 10 20))) with (Some "amt").
      cbn [min_value max_value ExactScenario.between]. apply andb_true_iff.
      split; [apply sql_ge_exact | apply sql_le_exact_bound];
        (exists (IZR z); split; [vm_compute; reflexivity | assumption]). }
    unfold ExactScenario.trips at 2 3. cbn [schema rows Scenario.two_amounts List.filter].
    unfold Scenario.two_amounts. cbn [List.filter].
    rewrite !Hin by lia. reflexivity.
  - reflexivity.
  - reflexivity.
  - reflexivity.
Defined.
